(** * smart_ptr: a reference-counted pointer with explicit clone

    Shallow embedding of [smart_ptr<T>] from [src/smart_ptr.cpp] and of the
    replaced [operator new] and [operator delete] defined next to it, which
    inject allocation failures ([throwBadAlloc]) and, on request
    ([recordaddrs]), record the addresses handed out in the set [addrs].

    - The free store: [heap] maps the address of each block the program
      got from [operator new] to what the block holds, a [T] object, the
      [int] behind a reference count, or no object at all.  The blocks of
      the tree nodes of [addrs] are kept with the set.
    - Every live [smart_ptr] object has an identity (its address, the [this]
      of the member functions); the map [boxes] holds the two fields
      [ptr_] and [ref_] of each live object, so that aliasing between
      handles is aliasing between addresses stored in different objects.
    - Member functions are computations in a small monad over the program
      state whose results are: normal completion, a C++ exception, or
      undefined behaviour (null or dangling dereference, use of a dead
      object, signed overflow). *)

From stdpp Require Import gmap fin_maps fin_map_dom.
From Stdlib Require Import ZArith Lia.

Local Open Scope Z_scope.

(** ** Addresses, cells, program state *)

Abbreviation loc := positive.
Abbreviation handle := positive.

(** [class null_ptr_exception] and [std::bad_alloc]. *)
Inductive exn := bad_alloc | null_ptr_exception.

(** What a block of the free store holds: a [T], an [int], or storage in
    which no object has been constructed. *)
Inductive cell (T : Type) :=
| TCell (v : T)
| IntCell (n : Z)
| RawCell.
Arguments TCell {T} v.
Arguments IntCell {T} n.
Arguments RawCell {T}.

(** The private members [T* ptr_] and [int* ref_]; [None] is [nullptr]. *)
Record smart_ptr := Box { ptr_ : option loc; ref_ : option loc }.

(** The globals [throwBadAlloc], [recordaddrs] and [addrs] are part of the
    state.  [addrs] is a [std::set<void*>]: each address in it is held by a
    tree node of its own, so the set is a map from the recorded addresses
    to the blocks of their nodes. *)
Record state (T : Type) := State {
  heap : gmap loc (cell T);
  boxes : gmap handle smart_ptr;
  throwBadAlloc : Z;
  recordaddrs : bool;
  addrs : gmap loc loc
}.
Arguments State {T} heap boxes throwBadAlloc recordaddrs addrs.
Arguments heap {T} s.
Arguments boxes {T} s.
Arguments throwBadAlloc {T} s.
Arguments recordaddrs {T} s.
Arguments addrs {T} s.

Inductive outcome (T A : Type) :=
| Ok (a : A) (s : state T)
| Throw (e : exn) (s : state T)
| UB.
Arguments Ok {T A} a s.
Arguments Throw {T A} e s.
Arguments UB {T A}.

(** [int] is 32 bits wide; overflow of a signed [int] is undefined. *)
Definition INT_MAX : Z := 2147483647.
Definition INT_MIN : Z := -2147483648.

(** The two states of the data model. *)
Definition Empty (b : smart_ptr) : Prop := ptr_ b = None ∧ ref_ b = None.
Definition Occupied (b : smart_ptr) : Prop := is_Some (ptr_ b) ∧ is_Some (ref_ b).

Section SmartPtr.
Context {T : Type}.
(** [T()], the value-initialised object made by [new T()]. *)
Variable T_init : T.

Definition M (A : Type) : Type := state T → outcome T A.

Definition ret {A} (a : A) : M A := λ s, Ok a s.
Definition bind {A B} (m : M A) (k : A → M B) : M B :=
  λ s, match m s with
       | Ok a s' => k a s'
       | Throw e s' => Throw e s'
       | UB => UB
       end.
Definition throw {A} (e : exn) : M A := λ s, Throw e s.
Definition undefined {A} : M A := λ _, UB.

Notation "'let!' x := m 'in' k" := (bind m (λ x, k))
  (at level 10, x name, m at level 100, k at level 200).
Notation "m ;; k" := (bind m (λ _, k))
  (at level 100, k at level 200, right associativity).

(** [try { x = m; rest } catch (std::bad_alloc) { handler }] where [m] is
    the statement that may throw and [handler] is the catch block
    instantiated with the locals as they are when [m] throws. *)
Definition try_bad_alloc {A B} (m : M A) (handler : M B) (k : A → M B) : M B :=
  λ s, match m s with
       | Ok a s' => k a s'
       | Throw bad_alloc s' => handler s'
       | Throw e s' => Throw e s'
       | UB => UB
       end.

(** *** State updates *)

Definition set_heap (h : gmap loc (cell T)) (s : state T) : state T :=
  State h (boxes s) (throwBadAlloc s) (recordaddrs s) (addrs s).
Definition set_boxes (bs : gmap handle smart_ptr) (s : state T) : state T :=
  State (heap s) bs (throwBadAlloc s) (recordaddrs s) (addrs s).
Definition set_throwBadAlloc (n : Z) (s : state T) : state T :=
  State (heap s) (boxes s) n (recordaddrs s) (addrs s).
Definition set_recordaddrs (b : bool) (s : state T) : state T :=
  State (heap s) (boxes s) (throwBadAlloc s) b (addrs s).
Definition set_addrs (ad : gmap loc loc) (s : state T) : state T :=
  State (heap s) (boxes s) (throwBadAlloc s) (recordaddrs s) ad.

(** *** Fields of the object at [this] *)

Definition get_box (this : handle) : M smart_ptr :=
  λ s, match boxes s !! this with
       | Some b => Ok b s
       | None => UB
       end.
Definition get_ptr (this : handle) : M (option loc) :=
  let! b := get_box this in ret (ptr_ b).
Definition get_ref (this : handle) : M (option loc) :=
  let! b := get_box this in ret (ref_ b).
Definition set_ptr (this : handle) (p : option loc) : M unit :=
  let! b := get_box this in
  λ s, Ok tt (set_boxes (<[this := Box p (ref_ b)]> (boxes s)) s).
Definition set_ref (this : handle) (r : option loc) : M unit :=
  let! b := get_box this in
  λ s, Ok tt (set_boxes (<[this := Box (ptr_ b) r]> (boxes s)) s).

(** Storage of an object under construction becomes a live object once
    its constructor has run to completion; [end_lifetime] is what follows
    the destructor when the object goes out of scope. *)
Definition begin_lifetime (this : handle) (b : smart_ptr) : M unit :=
  λ s, Ok tt (set_boxes (<[this := b]> (boxes s)) s).
Definition end_lifetime (this : handle) : M unit :=
  λ s, Ok tt (set_boxes (delete this (boxes s)) s).

(** *** The free store *)

(** The blocks in use: those handed out by [operator new] and the tree
    nodes of [addrs]. *)
Definition blocks (s : state T) : gset loc :=
  dom (heap s) ∪ map_img (addrs s).

(** [malloc(n)] returns a block distinct from every block in use; no
    object lives in it yet.  [free(p)] gives the block back. *)
Definition malloc : M loc :=
  λ s, let p := fresh (blocks s) in
       Ok p (set_heap (<[p := RawCell]> (heap s)) s).
Definition free (p : loc) : M unit :=
  λ s, Ok tt (set_heap (delete p (heap s)) s).

Definition read_recordaddrs : M bool := λ s, Ok (recordaddrs s) s.
Definition write_recordaddrs (b : bool) : M unit :=
  λ s, Ok tt (set_recordaddrs b s).

(** The first statement of [operator new]: when recording or when
    [throwBadAlloc] is not zero, [throwBadAlloc == 1] throws and a larger
    value counts down. *)
Definition throw_or_count_down : M unit :=
  λ s, if recordaddrs s || negb (throwBadAlloc s =? 0) then
         if throwBadAlloc s =? 1 then Throw bad_alloc s
         else if 1 <? throwBadAlloc s
              then Ok tt (set_throwBadAlloc (throwBadAlloc s - 1) s)
              else Ok tt s
       else Ok tt s.

(** [addrs.insert(p)]: an address already in the set is not inserted
    again; a new one gets a tree node, for which the set calls
    [operator new] ([node_alloc]).  When that call throws the set is
    unchanged; otherwise the node's block belongs to the set from then on.
    [addrs.find(p)] followed by [addrs.erase(it)] removes the address and
    gives the block of its node back. *)
Definition addrs_insert (node_alloc : M loc) (p : loc) : M unit :=
  λ s, match addrs s !! p with
       | Some _ => Ok tt s
       | None =>
           (let! nd := node_alloc in
            λ s', Ok tt (State (delete nd (heap s')) (boxes s') (throwBadAlloc s')
                           (recordaddrs s') (<[p := nd]> (addrs s')))) s
       end.
Definition addrs_erase (p : loc) : M unit :=
  λ s, Ok tt (set_addrs (delete p (addrs s)) s).

(** [void* operator new(size_t)].  It calls itself through [addrs.insert],
    with [recordaddrs] set to [false] for the time of that call; [depth]
    bounds the nesting of calls, and two levels are all that is ever used
    ([operator_new_depth] below). *)
Fixpoint operator_new_at (depth : nat) : M loc :=
  match depth with
  | O => undefined
  | S d =>
      throw_or_count_down;;
      let! p := malloc in
      (let! recording := read_recordaddrs in
       if recording then
         write_recordaddrs false;;
         addrs_insert (operator_new_at d) p;;
         write_recordaddrs true
       else ret tt);;
      ret p
  end.
Definition operator_new : M loc := operator_new_at 2.

(** [void operator delete(void* p)]: [recordaddrs] is set back to [true]
    whether or not the address was found. *)
Definition operator_delete (p : loc) : M unit :=
  (let! recording := read_recordaddrs in
   if recording then
     write_recordaddrs false;;
     addrs_erase p;;
     write_recordaddrs true
   else ret tt);;
  free p.

(** The object constructed in the block at [a]. *)
Definition init_cell (a : loc) (c : cell T) : M unit :=
  λ s, Ok tt (set_heap (<[a := c]> (heap s)) s).

(** [new T{v}] and [new int(n)]. *)
Definition new_T (v : T) : M loc :=
  let! a := operator_new in init_cell a (TCell v);; ret a.
Definition new_int (n : Z) : M loc :=
  let! a := operator_new in init_cell a (IntCell n);; ret a.

(** [delete p] for a [T*] and for an [int*]; deleting [nullptr] does
    nothing, deleting anything but a live object of that type is
    undefined. *)
Definition delete_T (p : option loc) : M unit :=
  match p with
  | None => ret tt
  | Some a => λ s, match heap s !! a with
                   | Some (TCell _) => operator_delete a s
                   | _ => UB
                   end
  end.
Definition delete_int (r : option loc) : M unit :=
  match r with
  | None => ret tt
  | Some a => λ s, match heap s !! a with
                   | Some (IntCell _) => operator_delete a s
                   | _ => UB
                   end
  end.

(** [*r] read and written through an [int*], [*p] through a [T*]. *)
Definition load_int (r : option loc) : M Z :=
  match r with
  | None => undefined
  | Some a => λ s, match heap s !! a with
                   | Some (IntCell n) => Ok n s
                   | _ => UB
                   end
  end.
Definition store_int (r : option loc) (n : Z) : M unit :=
  match r with
  | None => undefined
  | Some a => λ s, match heap s !! a with
                   | Some (IntCell _) => Ok tt (set_heap (<[a := IntCell n]> (heap s)) s)
                   | _ => UB
                   end
  end.
Definition load_T (p : option loc) : M T :=
  match p with
  | None => undefined
  | Some a => λ s, match heap s !! a with
                   | Some (TCell v) => Ok v s
                   | _ => UB
                   end
  end.
Definition store_T (p : option loc) (v : T) : M unit :=
  match p with
  | None => undefined
  | Some a => λ s, match heap s !! a with
                   | Some (TCell _) => Ok tt (set_heap (<[a := TCell v]> (heap s)) s)
                   | _ => UB
                   end
  end.

(** Increment and decrement of the [int] behind [r]. *)
Definition incr_int (r : option loc) : M unit :=
  let! n := load_int r in
  if n <? INT_MAX then store_int r (n + 1) else undefined.
Definition decr_int (r : option loc) : M unit :=
  let! n := load_int r in
  if INT_MIN <? n then store_int r (n - 1) else undefined.

(** ** The member functions of [smart_ptr<T>] *)

(** [smart_ptr() noexcept] *)
Definition ctor_default (this : handle) : M unit :=
  begin_lifetime this (Box None None).

(** [explicit smart_ptr(T* &raw_ptr)]; the constructor never assigns to
    [raw_ptr]. When [new int(1)] throws, no object comes to life. *)
Definition ctor_lref (this : handle) (raw_ptr : option loc) : M unit :=
  let p := raw_ptr in
  let! r := new_int 1 in
  begin_lifetime this (Box p (Some r)).

(** [explicit smart_ptr(T* &&raw_ptr)] *)
Definition ctor_rref (this : handle) (raw_ptr : option loc) : M unit :=
  let p := raw_ptr in
  try_bad_alloc (new_int 1)
    (delete_T raw_ptr;; throw bad_alloc)
    (λ r, begin_lifetime this (Box p (Some r))).

(** [smart_ptr(const smart_ptr& rhs) noexcept] *)
Definition ctor_copy (this rhs : handle) : M unit :=
  let! p := get_ptr rhs in
  let! r := get_ref rhs in
  incr_int r;;
  begin_lifetime this (Box p r).

(** [smart_ptr(smart_ptr&& rhs) noexcept] *)
Definition ctor_move (this rhs : handle) : M unit :=
  let! p := get_ptr rhs in
  let! r := get_ref rhs in
  begin_lifetime this (Box p r);;
  set_ptr rhs None;;
  set_ref rhs None.

(** [int ref_count() const noexcept] *)
Definition ref_count (this : handle) : M Z :=
  let! r := get_ref this in
  match r with
  | None => ret 0
  | Some _ => load_int r
  end.

(** [~smart_ptr() noexcept], the body only. *)
Definition dtor (this : handle) : M unit :=
  let! r := get_ref this in
  match r with
  | None => ret tt
  | Some _ =>
      let! n := load_int r in
      if n =? 1 then
        delete_int r;;
        (let! p := get_ptr this in delete_T p);;
        set_ref this None;;
        set_ptr this None
      else
        decr_int r;;
        set_ref this None;;
        set_ptr this None
  end.

(** An object going out of scope: destructor, then the storage is gone. *)
Definition destroy (this : handle) : M unit :=
  dtor this;; end_lifetime this.

(** [smart_ptr& operator=(const smart_ptr& rhs) noexcept]; the explicit
    call [this->~smart_ptr()] runs the destructor body and the object
    stays in use. *)
Definition assign_copy (this rhs : handle) : M unit :=
  if decide (this = rhs) then ret tt
  else
    let! n := ref_count this in
    if 1 <? n then
      (let! r := get_ref this in decr_int r);;
      (let! p := get_ptr rhs in set_ptr this p);;
      (let! r := get_ref rhs in set_ref this r);;
      let! r := get_ref this in
      match r with
      | Some _ => incr_int r
      | None => ret tt
      end
    else
      dtor this;;
      (let! p := get_ptr rhs in set_ptr this p);;
      (let! r := get_ref rhs in set_ref this r);;
      let! r := get_ref this in
      match r with
      | Some _ => incr_int r
      | None => ret tt
      end.

(** [smart_ptr& operator=(smart_ptr&& rhs) noexcept] *)
Definition assign_move (this rhs : handle) : M unit :=
  if decide (this = rhs) then ret tt
  else
    (let! p := get_ptr rhs in set_ptr this p);;
    (let! r := get_ref rhs in set_ref this r);;
    set_ptr rhs None;;
    set_ref rhs None.

(** The catch block of [clone], with the locals [p] and [r]. *)
Definition clone_catch (p r : option loc) : M bool :=
  delete_T p;; delete_int r;; throw bad_alloc.

(** [bool clone()] *)
Definition clone (this : handle) : M bool :=
  let! p0 := get_ptr this in
  match p0 with
  | None => ret false
  | Some _ =>
      let! n := ref_count this in
      if n =? 1 then ret false
      else
        try_bad_alloc (new_T T_init) (clone_catch None None) (λ p,
        try_bad_alloc (new_int 1) (clone_catch (Some p) None) (λ r,
          (let! cur := get_ptr this in
           let! v := load_T cur in store_T (Some p) v);;
          set_ptr this (Some p);;
          (let! old := get_ref this in decr_int old);;
          set_ref this (Some r);;
          ret true))
  end.

(** [T& operator*()] and [T* operator->()]: both hand out the address of
    the referred object without reading it. *)
Definition operator_star (this : handle) : M loc :=
  let! p := get_ptr this in
  match p with
  | Some a => ret a
  | None => throw null_ptr_exception
  end.
Definition operator_arrow (this : handle) : M loc :=
  let! p := get_ptr this in
  match p with
  | Some a => ret a
  | None => throw null_ptr_exception
  end.

End SmartPtr.

(** ** Observations on outcomes *)

(** The state in which a call completed, by returning or by throwing. *)
Definition final_state {T A} (o : outcome T A) : option (state T) :=
  match o with
  | Ok _ s => Some s
  | Throw _ s => Some s
  | UB => None
  end.

Definition raises {T A} (o : outcome T A) (e : exn) : Prop :=
  ∃ s, o = Throw e s.

(** What one pass through the first statement of [operator new] does to
    [throwBadAlloc] when it does not throw. *)
Definition countdown (n : Z) : Z := if 1 <? n then n - 1 else n.

(** The state [operator delete] leaves when called on [p]: the block is
    gone and, when addresses are recorded, so is the entry of [p] in
    [addrs]. *)
Definition erase_if (recording : bool) (p : loc) (ad : gmap loc loc) : gmap loc loc :=
  if recording then delete p ad else ad.
Definition deleted {T} (p : loc) (s : state T) : state T :=
  State (delete p (heap s)) (boxes s) (throwBadAlloc s) (recordaddrs s)
        (erase_if (recordaddrs s) p (addrs s)).

(** [operator new] with its nested call written out ([operator_new_unfold]
    below).  The call throws at once when [throwBadAlloc] is 1.  Otherwise
    it counts down and takes a block [p]; when recording, and unless [p] is
    in [addrs] already (the address of a block that was freed while
    recording was off), the insertion runs the countdown a second time:
    it throws when that reaches 1, leaving the block [p] behind and
    [recordaddrs] switched off, and otherwise takes a second block for the
    tree node. *)
Definition operator_new_closed {T} (s : state T) : outcome T loc :=
  if throwBadAlloc s =? 1 then Throw bad_alloc s
  else
    let p := fresh (blocks s) in
    let h1 := <[p := RawCell]> (heap s) in
    let t1 := countdown (throwBadAlloc s) in
    if recordaddrs s then
      match addrs s !! p with
      | Some _ => Ok p (State h1 (boxes s) t1 true (addrs s))
      | None =>
          if t1 =? 1 then Throw bad_alloc (State h1 (boxes s) 1 false (addrs s))
          else
            let nd := fresh (dom h1 ∪ map_img (addrs s)) in
            Ok p (State h1 (boxes s) (countdown t1) true (<[p := nd]> (addrs s)))
      end
    else Ok p (State h1 (boxes s) t1 false (addrs s)).

(** ** Programs over the public interface *)

(** What a client of the class can do: allocate a value it then owns,
    arm the failure injection of [operator new], switch the recording of
    addresses on or off, run a constructor on fresh storage, call a member function of a live object, let an object go out
    of scope.  The raw-value constructors receive the address of a value
    (an owned raw value is never [nullptr]). *)
Inductive op (T : Type) :=
| NewT (v : T)
| SetThrowBadAlloc (n : Z)
| SetRecordaddrs (b : bool)
| Default (this : handle)
| FromLref (this : handle) (raw_ptr : loc)
| FromRref (this : handle) (raw_ptr : loc)
| Copy (this rhs : handle)
| Move (this rhs : handle)
| Assign (this rhs : handle)
| MoveAssign (this rhs : handle)
| Clone (this : handle)
| RefCount (this : handle)
| Star (this : handle)
| Arrow (this : handle)
| Destroy (this : handle).
Arguments NewT {T} v.
Arguments SetThrowBadAlloc {T} n.
Arguments SetRecordaddrs {T} b.
Arguments Default {T} this.
Arguments FromLref {T} this raw_ptr.
Arguments FromRref {T} this raw_ptr.
Arguments Copy {T} this rhs.
Arguments Move {T} this rhs.
Arguments Assign {T} this rhs.
Arguments MoveAssign {T} this rhs.
Arguments Clone {T} this.
Arguments RefCount {T} this.
Arguments Star {T} this.
Arguments Arrow {T} this.
Arguments Destroy {T} this.

(** Number of live handles whose count pointer is [r]. *)
Definition aliases (bs : gmap handle smart_ptr) (r : loc) : nat :=
  size (filter (λ hb : handle * smart_ptr, ref_ hb.2 = Some r) bs).

(** What one handle contributes to [aliases]. *)
Definition refers (b : smart_ptr) (r : loc) : nat :=
  if decide (ref_ b = Some r) then 1%nat else 0%nat.

(** The [int] stored at [r], when [r] is the address of a live count. *)
Definition cnt {T} (h : gmap loc (cell T)) (r : loc) : option Z :=
  match h !! r with
  | Some (IntCell n) => Some n
  | _ => None
  end.

Section Programs.
Context {T : Type}.
Variable T_init : T.

Definition discard {A} (m : M A) : M (T:=T) unit := bind m (λ _, ret tt).

Definition run_op (o : op T) : M (T:=T) unit :=
  match o with
  | NewT v => discard (new_T v)
  | SetThrowBadAlloc n => λ s, Ok tt (set_throwBadAlloc n s)
  | SetRecordaddrs b => write_recordaddrs b
  | Default this => ctor_default this
  | FromLref this a => ctor_lref this (Some a)
  | FromRref this a => ctor_rref this (Some a)
  | Copy this rhs => ctor_copy this rhs
  | Move this rhs => ctor_move this rhs
  | Assign this rhs => assign_copy this rhs
  | MoveAssign this rhs => assign_move this rhs
  | Clone this => discard (clone T_init this)
  | RefCount this => discard (ref_count this)
  | Star this => discard (operator_star this)
  | Arrow this => discard (operator_arrow this)
  | Destroy this => destroy this
  end.

(** A constructor runs on storage that holds no live object. *)
Definition storage_ok (o : op T) (s : state T) : bool :=
  match o with
  | Default this | FromLref this _ | FromRref this _
  | Copy this _ | Move this _ => bool_decide (boxes s !! this = None)
  | _ => true
  end.

(** One operation that completes, by returning or by throwing. *)
Definition exec_op (o : op T) (s : state T) : option (state T) :=
  if storage_ok o s then final_state (run_op o s) else None.

Fixpoint exec (os : list (op T)) (s : state T) : option (state T) :=
  match os with
  | [] => Some s
  | o :: os' =>
      match exec_op o s with
      | Some s' => exec os' s'
      | None => None
      end
  end.

(** The program starts with nothing allocated, no object alive,
    [throwBadAlloc = 0], [recordaddrs = false] and [addrs] empty. *)
Definition initial : state T := State ∅ ∅ 0 false ∅.

Inductive reachable : state T → Prop :=
| reachable_initial : reachable initial
| reachable_step s o s' :
    reachable s → exec_op o s = Some s' → reachable s'.

(** The two allocations [clone] makes, in the order it makes them:
    [new T()], then [new int(1)]. *)
Definition clone_allocations : M (T:=T) (loc * loc) :=
  bind (new_T T_init) (λ p, bind (new_int 1) (λ r, ret (p, r))).

(** The state after a deep copy, from the state [s2] in which the two
    allocations are done: the new value at [a'] holds a copy of [v], the
    old count at [r] is one lower, the handle is rebound to the fresh pair
    [a'], [r']. *)
Definition cloned (s2 : state T) (this : handle) (a' r' r : loc) (v : T) (n : Z) :
    state T :=
  State (<[r := IntCell (n - 1)]> (<[a' := TCell v]> (heap s2)))
        (<[this := Box (Some a') (Some r')]> (boxes s2))
        (throwBadAlloc s2) (recordaddrs s2) (addrs s2).

(** A move assignment onto a destination that has nothing to release
    (every other operation passes). *)
Definition nothing_to_release (o : op T) (s : state T) : Prop :=
  match o with
  | MoveAssign this rhs => this = rhs ∨ ∃ b, boxes s !! this = Some b ∧ Empty b
  | _ => True
  end.

Inductive reachable_releasing : state T → Prop :=
| releasing_initial : reachable_releasing initial
| releasing_step s o s' :
    reachable_releasing s → nothing_to_release o s →
    exec_op o s = Some s' → reachable_releasing s'.

(** *** Invariants of reachable states *)

(** A count [n] for [k] handles: exactly [k], or at least [k]. *)
Definition covers (exact : bool) (k n : Z) : Prop :=
  if exact then k = n else k ≤ n.

(** The count stored behind [r] covers the handles that reference it. *)
Definition counted (exact : bool) (s : state T) (r : loc) : Prop :=
  aliases (boxes s) r = 0%nat ∨
  ∃ n, cnt (heap s) r = Some n ∧ covers exact (Z.of_nat (aliases (boxes s) r)) n.

Definition two_state (s : state T) : Prop :=
  ∀ h b, boxes s !! h = Some b → Empty b ∨ Occupied b.

Definition consistent (exact : bool) (s : state T) : Prop :=
  two_state s ∧ ∀ r, counted exact s r.

(** The invariant of the data model: the count equals the number of live
    handles that alias the value. *)
Definition exact_count (s : state T) : Prop :=
  ∀ h b r, boxes s !! h = Some b → ref_ b = Some r →
    ∃ n, heap s !! r = Some (IntCell n) ∧ 1 ≤ n ∧ n = Z.of_nat (aliases (boxes s) r).

End Programs.

(** ** Example programs and states

    The pointed-to type is [int]; [T()] is 0. *)

(** Three handles sharing the value 314 (scenario B of the test harness),
    with [throwBadAlloc] set to [t]. *)
Definition shared3 (t : Z) : state Z :=
  State {[ 1%positive := TCell 314; 2%positive := IntCell 3 ]}
        {[ 1%positive := Box (Some 1%positive) (Some 2%positive);
           2%positive := Box (Some 1%positive) (Some 2%positive);
           3%positive := Box (Some 1%positive) (Some 2%positive) ]}
        t false ∅.

(** The same with the recording of addresses switched on, as tests 22 and
    23 of the harness do before they call [clone]. *)
Definition shared3_recording (t : Z) : state Z :=
  State {[ 1%positive := TCell 314; 2%positive := IntCell 3 ]}
        {[ 1%positive := Box (Some 1%positive) (Some 2%positive);
           2%positive := Box (Some 1%positive) (Some 2%positive);
           3%positive := Box (Some 1%positive) (Some 2%positive) ]}
        t true ∅.

(** From [shared3_recording 4], the state in which the second allocation
    of [clone] throws: the [T] at 3 is allocated and recorded (its tree
    node is the block 4), the block 5 taken for the count is left behind,
    recording is off.  From [shared3_recording 5], the state in which both
    allocations are done. *)
Definition shared3_count_alloc_failed : state Z :=
  State {[ 1%positive := TCell 314; 2%positive := IntCell 3;
           3%positive := TCell 0; 5%positive := RawCell ]}
        {[ 1%positive := Box (Some 1%positive) (Some 2%positive);
           2%positive := Box (Some 1%positive) (Some 2%positive);
           3%positive := Box (Some 1%positive) (Some 2%positive) ]}
        1 false {[ 3%positive := 4%positive ]}.

Definition shared3_allocated : state Z :=
  State {[ 1%positive := TCell 314; 2%positive := IntCell 3;
           3%positive := TCell 0; 5%positive := IntCell 1 ]}
        {[ 1%positive := Box (Some 1%positive) (Some 2%positive);
           2%positive := Box (Some 1%positive) (Some 2%positive);
           3%positive := Box (Some 1%positive) (Some 2%positive) ]}
        1 true {[ 3%positive := 4%positive; 5%positive := 6%positive ]}.

(** One default-constructed box. *)
Definition one_empty : state Z :=
  State ∅ {[ 1%positive := Box None None ]} 0 false ∅.

(** A caller-owned value and the next allocation set to fail. *)
Definition raw_value_alloc_fails : state Z :=
  State {[ 1%positive := TCell 0 ]} ∅ 1 false ∅.

(** A caller-owned value with recording on and [throwBadAlloc = 2], and the
    state in which [new int(1)] throws from there: the block it had taken
    is left behind and recording is off. *)
Definition raw_value_recording : state Z :=
  State {[ 1%positive := TCell 0 ]} ∅ 2 true ∅.
Definition raw_value_block_lost : state Z :=
  State {[ 1%positive := TCell 0; 2%positive := RawCell ]} ∅ 1 false ∅.

(** [smart_ptr<int> sp1{new int{42}}; smart_ptr<int> sp2{sp1};
     smart_ptr<int> sp3{new int{7}}; sp2 = std::move(sp3);] *)
Definition prog_move_onto_shared : list (op Z) :=
  [ NewT 42; FromRref 1%positive 1%positive; Copy 2%positive 1%positive;
    NewT 7; FromRref 3%positive 3%positive;
    MoveAssign 2%positive 3%positive ].

(** [smart_ptr<int> sp1{new int{42}}; smart_ptr<int> sp3{new int{7}};
     sp1 = std::move(sp3);] *)
Definition prog_move_onto_sole_owner : list (op Z) :=
  [ NewT 42; FromRref 1%positive 1%positive;
    NewT 7; FromRref 3%positive 3%positive;
    MoveAssign 1%positive 3%positive ].

(** [smart_ptr<int> sp1; smart_ptr<int> sp2;] *)
Definition prog_two_empty : list (op Z) :=
  [ Default 1%positive; Default 2%positive ].

(** The states these programs end in. *)
Definition after_move_onto_shared : state Z :=
  State {[ 1%positive := TCell 42; 2%positive := IntCell 2;
           3%positive := TCell 7; 4%positive := IntCell 1 ]}
        {[ 1%positive := Box (Some 1%positive) (Some 2%positive);
           2%positive := Box (Some 3%positive) (Some 4%positive);
           3%positive := Box None None ]}
        0 false ∅.

Definition after_move_onto_sole_owner : state Z :=
  State {[ 1%positive := TCell 42; 2%positive := IntCell 1;
           3%positive := TCell 7; 4%positive := IntCell 1 ]}
        {[ 1%positive := Box (Some 3%positive) (Some 4%positive);
           3%positive := Box None None ]}
        0 false ∅.

(** [int* p = nullptr; smart_ptr<int> sp{p};] *)
Definition null_raw_box : state Z :=
  State {[ 1%positive := IntCell 1 ]}
        {[ 1%positive := Box None (Some 1%positive) ]} 0 false ∅.

Definition two_empty : state Z :=
  State ∅ {[ 1%positive := Box None None; 2%positive := Box None None ]} 0 false ∅.

(** ** Further programs and invariants *)

(** The [else] branch of copy assignment taken whatever [ref_count()]
    says: destructor body, then the three statements both branches share. *)
Definition assign_copy_uniform {T} (this rhs : handle) : M (T:=T) unit :=
  if decide (this = rhs) then ret tt
  else
    bind (dtor this) (λ _,
    bind (bind (get_ptr rhs) (set_ptr this)) (λ _,
    bind (bind (get_ref rhs) (set_ref this)) (λ _,
    bind (get_ref this) (λ r,
      match r with
      | Some _ => incr_int r
      | None => ret tt
      end)))).

(** [k] allocations [new T{v}] in a row. *)
Fixpoint allocate {T} (k : nat) (v : T) : M (T:=T) unit :=
  match k with
  | O => ret tt
  | S k' => bind (new_T v) (λ _, allocate k' v)
  end.

(** A raw value the caller owns: a live [T] that no box points to. *)
Definition owned_raw {T} (s : state T) (a : loc) : Prop :=
  (∃ v, heap s !! a = Some (TCell v)) ∧
  ∀ h b, boxes s !! h = Some b → ptr_ b ≠ Some a.

(** The raw-value constructors are handed values the caller owns. *)
Definition hands_over_owned {T} (o : op T) (s : state T) : Prop :=
  match o with
  | FromLref _ a | FromRref _ a => owned_raw s a
  | _ => True
  end.

Inductive reachable_owned {T} (T_init : T) : state T → Prop :=
| owned_initial : reachable_owned T_init initial
| owned_step s o s' :
    reachable_owned T_init s → hands_over_owned o s →
    exec_op T_init o s = Some s' → reachable_owned T_init s'.

(** Every value pointer of a live box points to a live [T]. *)
Definition values_live {T} (s : state T) : Prop :=
  ∀ h b a, boxes s !! h = Some b → ptr_ b = Some a →
    ∃ v, heap s !! a = Some (TCell v).

(** Boxes that point to the same value share the same count. *)
Definition pairs_agree {T} (s : state T) : Prop :=
  ∀ h1 h2 b1 b2 a,
    boxes s !! h1 = Some b1 → boxes s !! h2 = Some b2 →
    ptr_ b1 = Some a → ptr_ b2 = Some a → ref_ b1 = ref_ b2.

Definition safe {T} (s : state T) : Prop :=
  consistent false s ∧ values_live s ∧ pairs_agree s.

(** Every allocated count is referenced by some live box. *)
Definition no_orphan {T} (s : state T) : Prop :=
  ∀ r n, cnt (heap s) r = Some n → (1 ≤ aliases (boxes s) r)%nat.

Definition tight {T} (s : state T) : Prop :=
  consistent true s ∧ no_orphan s.

(** Further example states: a caller-owned value, a sole owner, two
    handles on one value, two unrelated sole owners, a sole owner next to
    an Empty box. *)
Definition raw_value : state Z :=
  State {[ 1%positive := TCell 42 ]} ∅ 0 false ∅.

(** The same once a count has been allocated next to it. *)
Definition raw_value_and_count : state Z :=
  State {[ 1%positive := TCell 42; 2%positive := IntCell 1 ]} ∅ 0 false ∅.

(** Nothing allocated, recording on and [throwBadAlloc = 4]; and the state
    after [new int{42}] from there: the value is recorded, its tree node
    is the block 2, and the countdown has run twice. *)
Definition recording_armed : state Z := State ∅ ∅ 4 true ∅.
Definition first_value_recorded : state Z :=
  State {[ 1%positive := TCell 42 ]} ∅ 2 true {[ 1%positive := 2%positive ]}.

Definition sole_owner : state Z :=
  State {[ 1%positive := TCell 42; 2%positive := IntCell 1 ]}
        {[ 1%positive := Box (Some 1%positive) (Some 2%positive) ]} 0 false ∅.

Definition shared2 : state Z :=
  State {[ 1%positive := TCell 42; 2%positive := IntCell 2 ]}
        {[ 1%positive := Box (Some 1%positive) (Some 2%positive);
           2%positive := Box (Some 1%positive) (Some 2%positive) ]} 0 false ∅.

Definition two_owners : state Z :=
  State {[ 1%positive := TCell 42; 2%positive := IntCell 1;
           3%positive := TCell 7; 4%positive := IntCell 1 ]}
        {[ 1%positive := Box (Some 1%positive) (Some 2%positive);
           3%positive := Box (Some 3%positive) (Some 4%positive) ]} 0 false ∅.

Definition owner_and_empty : state Z :=
  State {[ 1%positive := TCell 42; 2%positive := IntCell 1 ]}
        {[ 1%positive := Box (Some 1%positive) (Some 2%positive);
           2%positive := Box None None ]} 0 false ∅.

(** ** Tactics for symbolic execution *)

Ltac msimpl :=
  unfold bind, ret, throw, undefined, try_bad_alloc in *;
  cbn [heap boxes throwBadAlloc recordaddrs addrs
       set_heap set_boxes set_throwBadAlloc set_recordaddrs set_addrs
       ptr_ ref_ final_state].

Ltac unfold_members :=
  unfold ctor_default, ctor_lref, ctor_rref, ctor_copy, ctor_move,
    assign_copy, assign_move, clone, clone_catch, destroy, dtor, ref_count,
    incr_int, decr_int,
    delete_T, delete_int, load_int, store_int, load_T, store_T,
    get_ptr, get_ref, set_ptr, set_ref, get_box, begin_lifetime, end_lifetime,
    discard in *.

Ltac lookup_step :=
  first
    [ rewrite lookup_insert_eq
    | rewrite lookup_insert_ne by congruence
    | rewrite lookup_delete_eq
    | rewrite lookup_delete_ne by congruence
    | match goal with
      | H : ?m !! ?k = _ |- context [?m !! ?k] => rewrite H
      | H : ptr_ ?b = _ |- context [ptr_ ?b] => rewrite H
      | H : ref_ ?b = _ |- context [ref_ ?b] => rewrite H
      end ].

Ltac case_step :=
  match goal with
  | |- context [match ?x with _ => _ end] =>
      lazymatch x with
      | context [match _ with _ => _ end] => fail
      | _ => destruct x eqn:?
      end
  end.

Ltac state_norm :=
  unfold set_boxes, set_heap, set_throwBadAlloc, set_recordaddrs, set_addrs;
  cbn [heap boxes throwBadAlloc recordaddrs addrs];
  rewrite ?insert_insert_eq.

(** ** Symbolic execution of the primitives *)

Section Exec.
Context {T : Type}.
Implicit Types (s : state T) (b : smart_ptr) (this rhs : handle).

Lemma get_box_live s this b :
  boxes s !! this = Some b → get_box this s = Ok b s.
Proof. intros H. unfold get_box. by rewrite H. Qed.

Lemma get_ptr_live s this b :
  boxes s !! this = Some b → get_ptr this s = Ok (ptr_ b) s.
Proof. intros H. unfold get_ptr, bind. by rewrite (get_box_live _ _ _ H). Qed.

Lemma get_ref_live s this b :
  boxes s !! this = Some b → get_ref this s = Ok (ref_ b) s.
Proof. intros H. unfold get_ref, bind. by rewrite (get_box_live _ _ _ H). Qed.

Lemma load_int_live s (a : loc) n :
  heap s !! a = Some (IntCell n) → load_int (Some a) s = Ok n s.
Proof. intros H. unfold load_int. by rewrite H. Qed.

Lemma ref_count_Empty s this b :
  boxes s !! this = Some b → ref_ b = None → ref_count this s = Ok 0 s.
Proof.
  intros H Hr. unfold ref_count, bind.
  rewrite (get_ref_live _ _ _ H), Hr. reflexivity.
Qed.

Lemma ref_count_shared s this b (r : loc) n :
  boxes s !! this = Some b → ref_ b = Some r →
  heap s !! r = Some (IntCell n) → ref_count this s = Ok n s.
Proof.
  intros H Hr Hn. unfold ref_count, bind.
  rewrite (get_ref_live _ _ _ H), Hr. by apply load_int_live.
Qed.

(** What a successful [ref_count] says about the fields and the heap. *)
Lemma ref_count_inv s this b n s' :
  boxes s !! this = Some b → ref_count this s = Ok n s' →
  s' = s ∧ ((ref_ b = None ∧ n = 0) ∨
            (∃ r : loc, ref_ b = Some r ∧ heap s !! r = Some (IntCell n))).
Proof.
  intros H. unfold ref_count, bind.
  rewrite (get_ref_live _ _ _ H).
  destruct (ref_ b) as [r|] eqn:Hr.
  - unfold load_int. destruct (heap s !! r) as [[v|m|]|] eqn:Hh; try discriminate.
    intros [= <- <-]. split; [done|]. right. eauto.
  - intros [= <- <-]. split; [done|]. by left.
Qed.

End Exec.

(** ** The replaced allocation functions *)

Section FreeStore.
Context {T : Type}.
Implicit Types (s : state T) (c : cell T) (p : loc).

Lemma fresh_not_in_heap (h : gmap loc (cell T)) (X : gset loc) :
  h !! fresh (dom h ∪ X) = None.
Proof.
  apply not_elem_of_dom. intros H.
  apply (is_fresh (dom h ∪ X)). by apply elem_of_union_l.
Qed.

Lemma fresh_blocks s : heap s !! fresh (blocks s) = None.
Proof. apply fresh_not_in_heap. Qed.

Lemma throw_or_count_down_exec s :
  throw_or_count_down s =
    if throwBadAlloc s =? 1 then Throw bad_alloc s
    else Ok tt (set_throwBadAlloc (countdown (throwBadAlloc s)) s).
Proof.
  unfold throw_or_count_down, countdown, set_throwBadAlloc.
  destruct (Z.eqb_spec (throwBadAlloc s) 1) as [E|E].
  - rewrite E. cbn. by rewrite orb_true_r.
  - destruct (Z.ltb_spec 1 (throwBadAlloc s)).
    + destruct (Z.eqb_spec (throwBadAlloc s) 0); [lia|]. cbn. by rewrite orb_true_r.
    + destruct (recordaddrs s || negb (throwBadAlloc s =? 0)); by destruct s.
Qed.

Lemma operator_new_unfold s : operator_new s = operator_new_closed s.
Proof.
  unfold operator_new, operator_new_closed, operator_new_at.
  unfold bind at 1. rewrite throw_or_count_down_exec.
  destruct (Z.eqb_spec (throwBadAlloc s) 1) as [E|E]; [done|].
  unfold bind, malloc, read_recordaddrs, write_recordaddrs, addrs_insert, ret, blocks.
  state_norm.
  destruct (recordaddrs s) eqn:Hrec; [|done].
  state_norm.
  destruct (addrs s !! _) eqn:Hst; [done|].
  cbn [operator_new_at]. unfold bind at 1 2.
  rewrite throw_or_count_down_exec. state_norm.
  destruct (Z.eqb_spec (countdown (throwBadAlloc s)) 1) as [E1|E1].
  - by rewrite E1.
  - unfold bind, malloc, read_recordaddrs, ret, blocks. state_norm.
    rewrite delete_insert_id; [done|]. apply fresh_not_in_heap.
Qed.

(** A call made while [recordaddrs] is false does not call again, and so
    two levels of calls are enough whatever the depth allowed. *)
Lemma operator_new_shallow d s :
  recordaddrs s = false → operator_new_at (S d) s = operator_new_at 1 s.
Proof.
  intros Hrec. cbn [operator_new_at]. unfold bind.
  rewrite throw_or_count_down_exec.
  destruct (throwBadAlloc s =? 1); [done|].
  unfold malloc, read_recordaddrs. state_norm. by rewrite Hrec.
Qed.

Lemma operator_new_depth d s : operator_new_at (S (S d)) s = operator_new s.
Proof.
  unfold operator_new. cbn [operator_new_at].
  unfold malloc, read_recordaddrs, write_recordaddrs, addrs_insert, ret, bind.
  rewrite throw_or_count_down_exec.
  destruct (throwBadAlloc s =? 1); [done|].
  state_norm. destruct (recordaddrs s); [|done]. state_norm.
  destruct (addrs s !! _); [done|].
  rewrite !throw_or_count_down_exec. state_norm.
  by destruct (countdown (throwBadAlloc s) =? 1).
Qed.

Lemma operator_delete_exec p s : operator_delete p s = Ok tt (deleted p s).
Proof.
  unfold operator_delete, deleted, erase_if, bind, read_recordaddrs,
    write_recordaddrs, addrs_erase, free, ret.
  state_norm. destruct (recordaddrs s) eqn:E; state_norm; by rewrite ?E.
Qed.

Lemma operator_new_fails s :
  throwBadAlloc s = 1 → operator_new s = Throw bad_alloc s.
Proof. intros H. rewrite operator_new_unfold. unfold operator_new_closed. by rewrite H. Qed.

(** Without recording, a call that does not throw counts down once. *)
Lemma operator_new_off s :
  recordaddrs s = false → throwBadAlloc s ≠ 1 →
  operator_new s =
    Ok (fresh (blocks s))
       (State (<[fresh (blocks s) := RawCell]> (heap s)) (boxes s)
          (countdown (throwBadAlloc s)) false (addrs s)).
Proof.
  intros Hrec Ht. rewrite operator_new_unfold. unfold operator_new_closed.
  rewrite Hrec. by destruct (Z.eqb_spec (throwBadAlloc s) 1).
Qed.

(** Counting down never throws when the counter is disarmed. *)
Lemma operator_new_disarmed s :
  throwBadAlloc s ≤ 0 →
  ∃ ad, operator_new s =
    Ok (fresh (blocks s))
       (State (<[fresh (blocks s) := RawCell]> (heap s)) (boxes s)
          (throwBadAlloc s) (recordaddrs s) ad).
Proof.
  intros Ht. rewrite operator_new_unfold. unfold operator_new_closed.
  assert (Hc : countdown (throwBadAlloc s) = throwBadAlloc s).
  { unfold countdown. destruct (Z.ltb_spec 1 (throwBadAlloc s)); lia. }
  rewrite !Hc.
  destruct (Z.eqb_spec (throwBadAlloc s) 1); [lia|].
  destruct (recordaddrs s); [|by eexists].
  destruct (addrs s !! _); by eexists.
Qed.

(** The three ways a call ends: it throws at once; it throws from the
    insertion into [addrs], leaving an unused block behind and recording
    switched off; it returns a block that was not in use. *)
Lemma operator_new_cases s :
  (throwBadAlloc s = 1 ∧ operator_new s = Throw bad_alloc s) ∨
  (∃ p, heap s !! p = None ∧ recordaddrs s = true ∧
        operator_new s =
          Throw bad_alloc (State (<[p := RawCell]> (heap s)) (boxes s) 1 false (addrs s))) ∨
  (∃ p tb ad,
     heap s !! p = None ∧ throwBadAlloc s ≠ 1 ∧
     (recordaddrs s = false → tb = countdown (throwBadAlloc s) ∧ ad = addrs s) ∧
     operator_new s =
       Ok p (State (<[p := RawCell]> (heap s)) (boxes s) tb (recordaddrs s) ad)).
Proof.
  rewrite operator_new_unfold. unfold operator_new_closed.
  pose proof (fresh_blocks s) as Hp.
  destruct (Z.eqb_spec (throwBadAlloc s) 1) as [E|E]; [by left|right].
  destruct (recordaddrs s) eqn:Hrec.
  - destruct (addrs s !! _) eqn:Hst.
    + right. eexists _, _, _. split; [exact Hp|]. split; [done|]. by split.
    + destruct (countdown (throwBadAlloc s) =? 1).
      * left. eexists. split; [exact Hp|]. by split.
      * right. eexists _, _, _. split; [exact Hp|]. split; [done|]. by split.
  - right. eexists _, _, _. split; [exact Hp|]. split; [done|]. by split.
Qed.

(** The same for a [new]-expression that constructs [c] in the block. *)
Lemma new_cases c s :
  let new := bind operator_new (λ a, bind (init_cell a c) (λ _, ret a)) in
  (throwBadAlloc s = 1 ∧ new s = Throw bad_alloc s) ∨
  (∃ p, heap s !! p = None ∧ recordaddrs s = true ∧
        new s =
          Throw bad_alloc (State (<[p := RawCell]> (heap s)) (boxes s) 1 false (addrs s))) ∨
  (∃ p tb ad,
     heap s !! p = None ∧ throwBadAlloc s ≠ 1 ∧
     (recordaddrs s = false → tb = countdown (throwBadAlloc s) ∧ ad = addrs s) ∧
     new s = Ok p (State (<[p := c]> (heap s)) (boxes s) tb (recordaddrs s) ad)).
Proof.
  intros new. unfold new, bind.
  destruct (operator_new_cases s)
    as [[Ht E]|[(p & Hp & Hrec & E)|(p & tb & ad & Hp & Ht & Hoff & E)]];
    rewrite E.
  - by left.
  - right. left. exists p. split; [done|]. by split.
  - right. right. exists p, tb, ad. split; [done|]. split; [done|]. split; [done|].
    unfold init_cell, ret. state_norm. done.
Qed.

Lemma new_T_cases (v : T) s :
  (throwBadAlloc s = 1 ∧ new_T v s = Throw bad_alloc s) ∨
  (∃ p, heap s !! p = None ∧ recordaddrs s = true ∧
        new_T v s =
          Throw bad_alloc (State (<[p := RawCell]> (heap s)) (boxes s) 1 false (addrs s))) ∨
  (∃ p tb ad,
     heap s !! p = None ∧ throwBadAlloc s ≠ 1 ∧
     (recordaddrs s = false → tb = countdown (throwBadAlloc s) ∧ ad = addrs s) ∧
     new_T v s = Ok p (State (<[p := TCell v]> (heap s)) (boxes s) tb (recordaddrs s) ad)).
Proof. apply (new_cases (TCell v)). Qed.

Lemma new_int_cases n s :
  (throwBadAlloc s = 1 ∧ new_int (T:=T) n s = Throw bad_alloc s) ∨
  (∃ p, heap s !! p = None ∧ recordaddrs s = true ∧
        new_int n s =
          Throw bad_alloc (State (<[p := RawCell]> (heap s)) (boxes s) 1 false (addrs s))) ∨
  (∃ p tb ad,
     heap s !! p = None ∧ throwBadAlloc s ≠ 1 ∧
     (recordaddrs s = false → tb = countdown (throwBadAlloc s) ∧ ad = addrs s) ∧
     new_int n s = Ok p (State (<[p := IntCell n]> (heap s)) (boxes s) tb (recordaddrs s) ad)).
Proof. apply (new_cases (IntCell n)). Qed.

(** The outcomes alone, for symbolic execution. *)
Lemma new_T_outcomes (v : T) s :
  new_T v s = Throw bad_alloc s ∨
  (∃ p, heap s !! p = None ∧
        new_T v s =
          Throw bad_alloc (State (<[p := RawCell]> (heap s)) (boxes s) 1 false (addrs s))) ∨
  (∃ p tb ad,
     heap s !! p = None ∧
     new_T v s = Ok p (State (<[p := TCell v]> (heap s)) (boxes s) tb (recordaddrs s) ad)).
Proof.
  destruct (new_T_cases v s)
    as [[_ E]|[(p & Hp & _ & E)|(p & tb & ad & Hp & _ & _ & E)]]; eauto 8.
Qed.

Lemma new_int_outcomes n s :
  new_int (T:=T) n s = Throw bad_alloc s ∨
  (∃ p, heap s !! p = None ∧
        new_int n s =
          Throw bad_alloc (State (<[p := RawCell]> (heap s)) (boxes s) 1 false (addrs s))) ∨
  (∃ p tb ad,
     heap s !! p = None ∧
     new_int n s = Ok p (State (<[p := IntCell n]> (heap s)) (boxes s) tb (recordaddrs s) ad)).
Proof.
  destruct (new_int_cases n s)
    as [[_ E]|[(p & Hp & _ & E)|(p & tb & ad & Hp & _ & _ & E)]]; eauto 8.
Qed.

(** What a [new]-expression that returned says about the two states. *)
Lemma new_T_inv (v : T) s p s1 :
  new_T v s = Ok p s1 →
  heap s !! p = None ∧ heap s1 = <[p := TCell v]> (heap s) ∧ boxes s1 = boxes s ∧
  recordaddrs s1 = recordaddrs s.
Proof.
  destruct (new_T_outcomes v s) as [E|[(q & _ & E)|(q & tb & ad & Hq & E)]];
    rewrite E; intros [=]. by subst.
Qed.

Lemma new_int_inv n s p s1 :
  new_int (T:=T) n s = Ok p s1 →
  heap s !! p = None ∧ heap s1 = <[p := IntCell n]> (heap s) ∧ boxes s1 = boxes s ∧
  recordaddrs s1 = recordaddrs s.
Proof.
  destruct (new_int_outcomes n s) as [E|[(q & _ & E)|(q & tb & ad & Hq & E)]];
    rewrite E; intros [=]. by subst.
Qed.

(** What a [new]-expression that threw left behind. *)
Lemma new_T_throws (v : T) s e s1 :
  new_T v s = Throw e s1 →
  e = bad_alloc ∧ boxes s1 = boxes s ∧ addrs s1 = addrs s ∧ throwBadAlloc s1 = 1 ∧
  (s1 = s ∨
   ∃ p, heap s !! p = None ∧ recordaddrs s = true ∧ recordaddrs s1 = false ∧
        heap s1 = <[p := RawCell]> (heap s)).
Proof.
  destruct (new_T_cases v s)
    as [[Ht E]|[(q & Hq & Hrec & E)|(q & tb & ad & Hq & _ & _ & E)]];
    rewrite E; intros [=]; subst; cbn [boxes addrs throwBadAlloc heap recordaddrs].
  - repeat (split; [done|]). by left.
  - repeat (split; [done|]). right. by exists q.
Qed.

Lemma new_int_throws n s e s1 :
  new_int (T:=T) n s = Throw e s1 →
  e = bad_alloc ∧ boxes s1 = boxes s ∧ addrs s1 = addrs s ∧ throwBadAlloc s1 = 1 ∧
  (s1 = s ∨
   ∃ p, heap s !! p = None ∧ recordaddrs s = true ∧ recordaddrs s1 = false ∧
        heap s1 = <[p := RawCell]> (heap s)).
Proof.
  destruct (new_int_cases n s)
    as [[Ht E]|[(q & Hq & Hrec & E)|(q & tb & ad & Hq & _ & _ & E)]];
    rewrite E; intros [=]; subst; cbn [boxes addrs throwBadAlloc heap recordaddrs].
  - repeat (split; [done|]). by left.
  - repeat (split; [done|]). right. by exists q.
Qed.

End FreeStore.

(** Runs a member function on a symbolic state, one case per path that
    completes; paths that end in undefined behaviour are dropped.  A
    [new]-expression contributes its three outcomes, with the address it
    returns or leaves behind as a variable. *)
Ltac fresh_facts :=
  repeat match goal with
    | H : <[_ := _]> _ !! _ = None |- _ =>
        apply lookup_insert_None in H; destruct H as [H ?]
    end.

Ltac alloc_step :=
  let E := fresh "Hnew" in
  let Hp := fresh "Hfresh" in
  match goal with
  | |- context [new_int ?n ?s] =>
      destruct (new_int_outcomes n s)
        as [E|[(? & Hp & E)|(? & ? & ? & Hp & E)]];
      rewrite E; clear E
  | |- context [new_T ?v ?s] =>
      destruct (new_T_outcomes v s)
        as [E|[(? & Hp & E)|(? & ? & ? & Hp & E)]];
      rewrite E; clear E
  end;
  try (cbn [heap] in Hp; fresh_facts).

Ltac delete_step := rewrite operator_delete_exec; unfold deleted.

(** Runs the steps of a path that the hypotheses determine. *)
Ltac exec_steps := msimpl; repeat (first [lookup_step | delete_step]; msimpl).

Ltac exec_step := first [lookup_step | delete_step | alloc_step | case_step].

Ltac exec_cases :=
  unfold_members; msimpl;
  repeat (exec_step; msimpl; try (intros [=]; fail));
  intros [= <-]; state_norm.

(** ** Dereference *)

Section Deref.
Context {T : Type}.
Implicit Types (s : state T) (b : smart_ptr) (this : handle).

Lemma operator_star_live s this b :
  boxes s !! this = Some b →
  operator_star this s =
    match ptr_ b with Some a => Ok a s | None => Throw null_ptr_exception s end.
Proof.
  intros H. unfold operator_star, bind.
  rewrite (get_ptr_live _ _ _ H). by destruct (ptr_ b).
Qed.

Lemma operator_arrow_live s this b :
  boxes s !! this = Some b →
  operator_arrow this s =
    match ptr_ b with Some a => Ok a s | None => Throw null_ptr_exception s end.
Proof.
  intros H. unfold operator_arrow, bind.
  rewrite (get_ptr_live _ _ _ H). by destruct (ptr_ b).
Qed.

(** C7, as amended. [operator*] and [operator->] raise
    [null_ptr_exception] exactly when the value pointer [ptr_] of the box
    is null, whatever its count pointer is; otherwise they return the
    address of the value.  So both raise on an Empty box, and on an
    Occupied box both return the address of the owned value and raise
    nothing. *)
Theorem deref_raises_iff_null_value s this b :
  boxes s !! this = Some b →
  (raises (operator_star this s) null_ptr_exception ↔ ptr_ b = None) ∧
  (raises (operator_arrow this s) null_ptr_exception ↔ ptr_ b = None) ∧
  (Empty b →
     operator_star this s = Throw null_ptr_exception s ∧
     operator_arrow this s = Throw null_ptr_exception s) ∧
  (Occupied b →
     ∃ a, ptr_ b = Some a ∧
          operator_star this s = Ok a s ∧ operator_arrow this s = Ok a s).
Proof.
  intros Hb.
  rewrite (operator_star_live _ _ _ Hb), (operator_arrow_live _ _ _ Hb).
  unfold raises, Empty, Occupied.
  destruct (ptr_ b) as [a|].
  - split; [|split; [|split]].
    + split; [intros [? ?]|intros ?]; discriminate.
    + split; [intros [? ?]|intros ?]; discriminate.
    + intros [? _]; discriminate.
    + intros _. by exists a.
  - split; [|split; [|split]].
    + split; [done|]. intros _. by eexists.
    + split; [done|]. intros _. by eexists.
    + done.
    + intros [[? ?] _]; discriminate.
Qed.

(** C10. A call of [operator*] or [operator->] on a live object completes
    (by returning or by throwing) in the very state it started from: the
    fields of every handle, every count and every value are untouched. *)
Theorem deref_modifies_nothing s this b :
  boxes s !! this = Some b →
  final_state (operator_star this s) = Some s ∧
  final_state (operator_arrow this s) = Some s.
Proof.
  intros Hb.
  rewrite (operator_star_live _ _ _ Hb), (operator_arrow_live _ _ _ Hb).
  by destruct (ptr_ b).
Qed.

End Deref.

(** ** Moving *)

Section Move.
Context {T : Type}.
Implicit Types (s : state T) (b : smart_ptr) (this rhs : handle).

Lemma ctor_move_exec s this rhs b :
  boxes s !! rhs = Some b → this ≠ rhs →
  ctor_move this rhs s =
    Ok tt (set_boxes (<[rhs := Box None None]> (<[this := b]> (boxes s))) s).
Proof.
  intros Hb Hne. unfold_members. exec_steps.
  rewrite insert_insert_eq. by destruct b.
Qed.

Lemma assign_move_exec s this rhs b b0 :
  boxes s !! rhs = Some b → boxes s !! this = Some b0 → this ≠ rhs →
  assign_move this rhs s =
    Ok tt (set_boxes (<[rhs := Box None None]> (<[this := b]> (boxes s))) s).
Proof.
  intros Hb Hb0 Hne. unfold_members.
  rewrite decide_False by done. exec_steps.
  rewrite !insert_insert_eq. by destruct b.
Qed.

Lemma assign_move_self s this : assign_move this this s = Ok tt s.
Proof. unfold assign_move. by rewrite decide_True. Qed.

End Move.

Section MoveClaims.
Context {T : Type}.
Implicit Types (s : state T) (b : smart_ptr) (this rhs : handle).

(** What both move operations leave behind. *)
Lemma moved_state s this rhs b n :
  boxes s !! rhs = Some b → ref_count rhs s = Ok n s → this ≠ rhs →
  let s' := set_boxes (<[rhs := Box None None]> (<[this := b]> (boxes s))) s in
  boxes s' !! rhs = Some (Box None None) ∧
  ref_count rhs s' = Ok 0 s' ∧
  ref_count this s' = Ok n s' ∧
  heap s' = heap s ∧ throwBadAlloc s' = throwBadAlloc s.
Proof.
  intros Hb Hn Hne s'.
  assert (Hrhs : boxes s' !! rhs = Some (Box None None))
    by (subst s'; cbn [boxes set_boxes]; apply lookup_insert_eq).
  assert (Hthis : boxes s' !! this = Some b).
  { subst s'; cbn [boxes set_boxes].
    rewrite lookup_insert_ne by done. apply lookup_insert_eq. }
  split; [done|]. split; [by eapply ref_count_Empty|].
  split; [|done].
  destruct (ref_count_inv _ _ _ _ _ Hb Hn) as [_ [[Hr ->]|(r & Hr & Hh)]].
  - by eapply ref_count_Empty.
  - by eapply ref_count_shared.
Qed.

(** C9. Moving from a box [rhs], by construction or by assignment, leaves
    [rhs] Empty with [ref_count() == 0] and gives the destination the count
    [rhs] had before; the free store and the allocation counter are not
    touched. Move-assigning a box to itself changes nothing. *)
Theorem move_transfers_count s this rhs b n :
  boxes s !! rhs = Some b → ref_count rhs s = Ok n s → this ≠ rhs →
  (∃ s', ctor_move this rhs s = Ok tt s' ∧
         boxes s' !! rhs = Some (Box None None) ∧
         ref_count rhs s' = Ok 0 s' ∧ ref_count this s' = Ok n s' ∧
         heap s' = heap s ∧ throwBadAlloc s' = throwBadAlloc s) ∧
  (is_Some (boxes s !! this) →
   ∃ s', assign_move this rhs s = Ok tt s' ∧
         boxes s' !! rhs = Some (Box None None) ∧
         ref_count rhs s' = Ok 0 s' ∧ ref_count this s' = Ok n s' ∧
         heap s' = heap s ∧ throwBadAlloc s' = throwBadAlloc s) ∧
  assign_move rhs rhs s = Ok tt s.
Proof.
  intros Hb Hn Hne. split; [|split].
  - eexists. split; [by apply ctor_move_exec|].
    by apply moved_state.
  - intros [b0 Hb0]. eexists. split; [by eapply assign_move_exec|].
    by apply moved_state.
  - apply assign_move_self.
Qed.

End MoveClaims.

(** ** Construction from a raw value when the count cannot be allocated *)

Section RawCtor.
Context {T : Type}.
Implicit Types (s : state T) (this : handle) (a : loc).

(** C6. When [new int(1)] throws, the constructor taking [T* &] propagates
    [bad_alloc] from the state in which [operator new] threw: the raw value
    is still allocated and no box was created.  The constructor taking
    [T* &&] propagates [bad_alloc] after deleting the raw value, and changes
    nothing else.  With [throwBadAlloc = 1] the allocation throws before it
    changes anything, so the first leaves the state it started from and
    the second that state without the raw value. *)
Theorem raw_ctor_alloc_failure s this a v :
  heap s !! a = Some (TCell v) →
  (throwBadAlloc s = 1 →
     ctor_lref this (Some a) s = Throw bad_alloc s ∧
     ctor_rref this (Some a) s = Throw bad_alloc (deleted a s)) ∧
  (∀ s1, new_int 1 s = Throw bad_alloc s1 →
     ctor_lref this (Some a) s = Throw bad_alloc s1 ∧
     heap s1 !! a = Some (TCell v) ∧ boxes s1 = boxes s ∧
     ctor_rref this (Some a) s = Throw bad_alloc (deleted a s1) ∧
     heap (deleted a s1) !! a = None).
Proof.
  intros Ha.
  assert (Hgen : ∀ s1, new_int 1 s = Throw bad_alloc s1 →
     ctor_lref this (Some a) s = Throw bad_alloc s1 ∧
     heap s1 !! a = Some (TCell v) ∧ boxes s1 = boxes s ∧
     ctor_rref this (Some a) s = Throw bad_alloc (deleted a s1) ∧
     heap (deleted a s1) !! a = None).
  { intros s1 Hnew.
    assert (Ha1 : heap s1 !! a = Some (TCell v)).
    { destruct (new_int_throws _ _ _ _ Hnew)
        as (_ & _ & _ & _ & [->|(p & Hp & _ & _ & ->)]); [done|].
      rewrite lookup_insert_ne by congruence. done. }
    split; [unfold ctor_lref, bind; by rewrite Hnew|].
    split; [done|].
    split; [by destruct (new_int_throws _ _ _ _ Hnew) as (_ & ? & _)|].
    split.
    - unfold ctor_rref, try_bad_alloc. rewrite Hnew.
      unfold delete_T, bind, throw. rewrite Ha1.
      by rewrite operator_delete_exec.
    - unfold deleted. cbn [heap]. apply lookup_delete_eq. }
  split; [|exact Hgen].
  intros Hfail.
  assert (Hnew : new_int 1 s = Throw bad_alloc s).
  { unfold new_int, bind. by rewrite operator_new_fails. }
  destruct (Hgen s Hnew) as (Hl & _ & _ & Hr & _). by split.
Qed.

End RawCtor.

(** ** clone *)

Section Clone.
Context {T : Type}.
Variable T_init : T.
Implicit Types (s : state T) (b : smart_ptr) (this : handle) (a r : loc).

Lemma ref_count_ext s s' this n :
  heap s' = heap s → boxes s' = boxes s →
  ref_count this s = Ok n s → ref_count this s' = Ok n s'.
Proof.
  intros Hh Hbs Hn.
  destruct (boxes s !! this) as [b|] eqn:Hb.
  - destruct (ref_count_inv _ _ _ _ _ Hb Hn) as [_ [[Hr ->]|(r & Hr & Hc)]].
    + eapply ref_count_Empty; [by rewrite Hbs|done].
    + eapply ref_count_shared; [by rewrite Hbs|done|by rewrite Hh].
  - unfold ref_count, get_ref, get_box, bind in Hn. by rewrite Hb in Hn.
Qed.

(** [ref_count] reads one live cell: it returns the same in any state
    that has the same boxes and keeps every live cell. *)
Lemma ref_count_mono s s' this n :
  (∀ x c, heap s !! x = Some c → heap s' !! x = Some c) → boxes s' = boxes s →
  ref_count this s = Ok n s → ref_count this s' = Ok n s'.
Proof.
  intros Hh Hbs Hn.
  destruct (boxes s !! this) as [b|] eqn:Hb.
  - destruct (ref_count_inv _ _ _ _ _ Hb Hn) as [_ [[Hr ->]|(r & Hr & Hc)]].
    + eapply ref_count_Empty; [by rewrite Hbs|done].
    + eapply ref_count_shared; [by rewrite Hbs|done|by apply Hh].
  - unfold ref_count, get_ref, get_box, bind in Hn. by rewrite Hb in Hn.
Qed.

Lemma clone_Empty s this b :
  boxes s !! this = Some b → ptr_ b = None → clone T_init this s = Ok false s.
Proof.
  intros Hb Hp. unfold clone, bind.
  by rewrite (get_ptr_live _ _ _ Hb), Hp.
Qed.

Lemma clone_exclusive s this b :
  boxes s !! this = Some b → ref_count this s = Ok 1 s →
  clone T_init this s = Ok false s.
Proof.
  intros Hb Hn. unfold clone, bind.
  rewrite (get_ptr_live _ _ _ Hb).
  destruct (ptr_ b); [|done]. by rewrite Hn.
Qed.

(** The two allocations, one after the other. *)
Lemma clone_allocations_Ok s a' r' s2 :
  clone_allocations T_init s = Ok (a', r') s2 ↔
  ∃ s1, new_T T_init s = Ok a' s1 ∧ new_int 1 s1 = Ok r' s2.
Proof.
  unfold clone_allocations, bind, ret. split.
  - destruct (new_T T_init s) as [p s1|e s1|] eqn:E1; [|done..].
    destruct (new_int 1 s1) as [q s3|e s3|] eqn:E2; [|done..].
    intros [= -> -> ->]. exists s1. by split.
  - intros (s1 & -> & ->). done.
Qed.

Lemma clone_allocations_raise s :
  raises (clone_allocations T_init s) bad_alloc ↔
  (∃ s1, new_T T_init s = Throw bad_alloc s1) ∨
  (∃ p s1 s2, new_T T_init s = Ok p s1 ∧ new_int 1 s1 = Throw bad_alloc s2).
Proof.
  unfold raises, clone_allocations, bind, ret. split.
  - intros [s0 H]. destruct (new_T T_init s) as [p s1|e s1|] eqn:E1; [|left|done].
    + right. destruct (new_int 1 s1) as [q s3|e s3|] eqn:E2; [done| |done].
      injection H as -> ->. exists p, s1, s0. by split.
    + injection H as -> ->. by exists s0.
  - intros [[s1 ->]|(p & s1 & s2 & -> & ->)]; by eexists.
Qed.


(** Without recording, the allocations of [clone] fail exactly when
    [throwBadAlloc] is 1 or 2. *)
Lemma clone_allocations_off s :
  recordaddrs s = false →
  (raises (clone_allocations T_init s) bad_alloc ↔
   throwBadAlloc s = 1 ∨ throwBadAlloc s = 2).
Proof.
  intros Hrec. rewrite clone_allocations_raise.
  destruct (decide (throwBadAlloc s = 1)) as [H1|H1].
  { split; [by left|]. intros _. left. exists s.
    unfold new_T, bind. by rewrite operator_new_fails. }
  assert (E : new_T T_init s =
              Ok (fresh (blocks s))
                 (State (<[fresh (blocks s) := TCell T_init]> (heap s)) (boxes s)
                    (countdown (throwBadAlloc s)) false (addrs s))).
  { unfold new_T, bind. rewrite operator_new_off by done.
    unfold init_cell, ret. state_norm. done. }
  set (s1 := State (<[fresh (blocks s) := TCell T_init]> (heap s)) (boxes s)
               (countdown (throwBadAlloc s)) false (addrs s)) in *.
  assert (Hc : throwBadAlloc s1 = 1 ↔ throwBadAlloc s = 2).
  { cbn [throwBadAlloc s1]. unfold countdown.
    destruct (Z.ltb_spec 1 (throwBadAlloc s)); lia. }
  split.
  - intros [[s0 H]|(p & s0 & s2 & H & H2)]; [congruence|].
    rewrite E in H. injection H as <- <-. right. apply Hc.
    destruct (decide (throwBadAlloc s1 = 1)) as [?|Hn]; [done|].
    unfold new_int, bind in H2. by rewrite operator_new_off in H2.
  - intros [?|H2]; [done|]. right. exists (fresh (blocks s)), s1, s1.
    split; [exact E|]. unfold new_int, bind.
    by rewrite operator_new_fails by (by apply Hc).
Qed.

(** What [clone] does once it has decided to copy. *)
Lemma clone_unfold s this b a n :
  boxes s !! this = Some b → ptr_ b = Some a →
  ref_count this s = Ok n s → n ≠ 1 →
  clone T_init this s =
    try_bad_alloc (new_T T_init) (clone_catch None None) (λ p,
    try_bad_alloc (new_int 1) (clone_catch (Some p) None) (λ r,
      bind (bind (get_ptr this) (λ cur,
              bind (load_T cur) (λ v, store_T (Some p) v))) (λ _,
      bind (set_ptr this (Some p)) (λ _,
      bind (bind (get_ref this) (λ old, decr_int old)) (λ _,
      bind (set_ref this (Some r)) (λ _, ret true)))))) s.
Proof.
  intros Hb Hp Hn Hne. unfold clone. unfold bind at 1.
  rewrite (get_ptr_live _ _ _ Hb), Hp. unfold bind at 1. rewrite Hn.
  by destruct (Z.eqb_spec n 1).
Qed.

(** The first allocation throws: nothing to undo. *)
Lemma clone_first_alloc_fails s this b a n s1 :
  boxes s !! this = Some b → ptr_ b = Some a →
  ref_count this s = Ok n s → n ≠ 1 →
  new_T T_init s = Throw bad_alloc s1 →
  clone T_init this s = Throw bad_alloc s1.
Proof.
  intros Hb Hp Hn Hne Hfail.
  rewrite (clone_unfold _ _ _ _ _ Hb Hp Hn Hne).
  unfold try_bad_alloc at 1. by rewrite Hfail.
Qed.

(** The second allocation throws: the [T] just made is deleted again. *)
Lemma clone_second_alloc_fails s this b a n p s1 s2 :
  boxes s !! this = Some b → ptr_ b = Some a →
  ref_count this s = Ok n s → n ≠ 1 →
  new_T T_init s = Ok p s1 → new_int 1 s1 = Throw bad_alloc s2 →
  clone T_init this s = Throw bad_alloc (deleted p s2) ∧
  heap (deleted p s2) = delete p (heap s2) ∧
  heap s2 !! p = Some (TCell T_init).
Proof.
  intros Hb Hp Hn Hne Hnew Hfail.
  destruct (new_T_inv _ _ _ _ Hnew) as (Hfresh & Hh1 & _).
  assert (Hp2 : heap s2 !! p = Some (TCell T_init)).
  { destruct (new_int_throws _ _ _ _ Hfail)
      as (_ & _ & _ & _ & [->|(q & Hq & _ & _ & ->)]).
    - rewrite Hh1. apply lookup_insert_eq.
    - rewrite lookup_insert_ne by (intros ->; rewrite Hh1, lookup_insert_eq in Hq; done).
      rewrite Hh1. apply lookup_insert_eq. }
  split; [|by split].
  rewrite (clone_unfold _ _ _ _ _ Hb Hp Hn Hne).
  unfold try_bad_alloc at 1. rewrite Hnew.
  unfold try_bad_alloc. rewrite Hfail.
  unfold clone_catch, delete_T, delete_int, bind, ret, throw.
  rewrite Hp2. by rewrite operator_delete_exec.
Qed.

(** C1. When an allocation made by [clone] throws, [bad_alloc] reaches the
    caller; the fields of every live handle, every live cell (the value,
    its count, everything else) and hence what every handle reports are as
    before the call; and the [T] that [clone] had allocated, if any, has
    been deleted again.  The free store is then exactly as before the
    call, except when [operator new] itself threw from its insertion into
    [addrs]: then the block it had taken, which [clone] never received, is
    still in the free store, holding no object, and recording is off.
    Without recording the state is as before but for the counter, which
    stands at 1. *)
Theorem clone_strong_guarantee s this b a n :
  boxes s !! this = Some b → ptr_ b = Some a →
  ref_count this s = Ok n s → n ≠ 1 →
  raises (clone_allocations T_init s) bad_alloc →
  ∃ s', clone T_init this s = Throw bad_alloc s' ∧
        boxes s' = boxes s ∧
        (∀ h m, ref_count h s = Ok m s → ref_count h s' = Ok m s') ∧
        (∀ x c, heap s !! x = Some c → heap s' !! x = Some c) ∧
        (∀ p s1, new_T T_init s = Ok p s1 → heap s' !! p = None) ∧
        (heap s' = heap s ∨
         ∃ q, heap s !! q = None ∧ heap s' = <[q := RawCell]> (heap s) ∧
              recordaddrs s = true ∧ recordaddrs s' = false) ∧
        (recordaddrs s = false → s' = set_throwBadAlloc 1 s).
Proof.
  intros Hb Hp Hn Hne Hfail.
  assert (Hstore : ∀ s',
    boxes s' = boxes s →
    (heap s' = heap s ∨
     ∃ q, heap s !! q = None ∧ heap s' = <[q := RawCell]> (heap s) ∧
          recordaddrs s = true ∧ recordaddrs s' = false) →
    (∀ h m, ref_count h s = Ok m s → ref_count h s' = Ok m s') ∧
    (∀ x c, heap s !! x = Some c → heap s' !! x = Some c)).
  { intros s' Hbs Hh.
    assert (Hkeep : ∀ x c, heap s !! x = Some c → heap s' !! x = Some c).
    { intros x c Hx. destruct Hh as [->|(q & Hq & -> & _)]; [done|].
      rewrite lookup_insert_ne by congruence. done. }
    split; [|done]. intros h m. by apply ref_count_mono. }
  apply clone_allocations_raise in Hfail as [[s1 H1]|(p & s1 & s2 & H1 & H2)].
  - exists s1. split; [by eapply clone_first_alloc_fails|].
    destruct (new_T_throws _ _ _ _ H1) as (_ & Hbs & Had & Ht & Hh).
    assert (Hheap : heap s1 = heap s ∨
              ∃ q, heap s !! q = None ∧ heap s1 = <[q := RawCell]> (heap s) ∧
                   recordaddrs s = true ∧ recordaddrs s1 = false).
    { destruct Hh as [->|(q & Hq & Hr & Hr1 & Hh)]; [by left|].
      right. by exists q. }
    destruct (Hstore s1 Hbs Hheap) as [Hrc Hkeep].
    split; [done|]. split; [done|]. split; [done|].
    split; [intros p s0 E; congruence|]. split; [done|].
    intros Hoff. destruct Hh as [->|(q & _ & Hr & _)]; [|congruence].
    unfold set_throwBadAlloc. rewrite <-Ht. by destruct s.
  - destruct (clone_second_alloc_fails s this b a n p s1 s2 Hb Hp Hn Hne H1 H2)
      as (Hclone & Hdel & Hp2).
    exists (deleted p s2). split; [done|].
    destruct (new_T_inv _ _ _ _ H1) as (Hfresh & Hh1 & Hbs1 & Hrec1).
    destruct (new_int_throws _ _ _ _ H2) as (_ & Hbs2 & Had2 & Ht2 & Hh2).
    assert (Hbs : boxes (deleted p s2) = boxes s)
      by (unfold deleted; cbn [boxes]; congruence).
    assert (Hheap : heap (deleted p s2) = heap s ∨
              ∃ q, heap s !! q = None ∧
                   heap (deleted p s2) = <[q := RawCell]> (heap s) ∧
                   recordaddrs s = true ∧ recordaddrs (deleted p s2) = false).
    { rewrite Hdel. destruct Hh2 as [->|(q & Hq & Hr & Hr2 & ->)].
      - left. rewrite Hh1. by apply delete_insert_id.
      - right. exists q.
        assert (Hqp : q ≠ p) by (intros ->; rewrite Hh1, lookup_insert_eq in Hq; done).
        rewrite Hh1, lookup_insert_ne in Hq by done.
        split; [done|]. split.
        + rewrite delete_insert_ne by done. rewrite Hh1. by rewrite delete_insert_id.
        + split; [congruence|]. unfold deleted. by cbn [recordaddrs]. }
    destruct (Hstore _ Hbs Hheap) as [Hrc Hkeep].
    split; [done|]. split; [done|]. split; [done|].
    split.
    { intros p' s0 E. rewrite H1 in E. injection E as <- <-.
      rewrite Hdel. apply lookup_delete_eq. }
    split; [done|].
    intros Hoff. destruct Hh2 as [->|(q & _ & Hr & _)]; [|congruence].
    destruct (new_T_cases T_init s)
      as [[_ E]|[(q & _ & _ & E)|(q & tb & ad & _ & _ & Hexact & E)]];
      rewrite E in H1; try discriminate.
    injection H1 as <- <-. destruct (Hexact Hoff) as [-> ->].
    unfold deleted, set_throwBadAlloc, erase_if.
    cbn [heap boxes throwBadAlloc recordaddrs addrs] in *.
    rewrite Hoff, Ht2. by rewrite delete_insert_id.
Qed.

End Clone.

Section CloneSuccess.
Context {T : Type}.
Variable T_init : T.
Implicit Types (s : state T) (b : smart_ptr) (this : handle) (a r : loc).

(** Where the two fresh cells and the old pair are once both allocations
    are done. *)
Lemma clone_allocations_cells s a' r' s2 :
  clone_allocations T_init s = Ok (a', r') s2 →
  heap s !! a' = None ∧ heap s !! r' = None ∧ a' ≠ r' ∧
  boxes s2 = boxes s ∧
  heap s2 !! a' = Some (TCell T_init) ∧ heap s2 !! r' = Some (IntCell 1) ∧
  ∀ x, x ≠ a' → x ≠ r' → heap s2 !! x = heap s !! x.
Proof.
  intros (s1 & H1 & H2)%clone_allocations_Ok.
  destruct (new_T_inv _ _ _ _ H1) as (Ha' & Hh1 & Hbs1 & _).
  destruct (new_int_inv _ _ _ _ H2) as (Hr' & Hh2 & Hbs2 & _).
  rewrite Hh1 in Hr'. apply lookup_insert_None in Hr' as [Hr' Hne].
  split; [done|]. split; [done|]. split; [done|]. split; [congruence|].
  rewrite Hh2, Hh1. split.
  - rewrite lookup_insert_ne by done. apply lookup_insert_eq.
  - split; [apply lookup_insert_eq|].
    intros x Hx1 Hx2. by rewrite !lookup_insert_ne by done.
Qed.

Lemma clone_exec s this b a r v n a' r' s2 :
  boxes s !! this = Some b → ptr_ b = Some a → ref_ b = Some r →
  heap s !! a = Some (TCell v) → heap s !! r = Some (IntCell n) →
  n ≠ 1 → INT_MIN < n →
  clone_allocations T_init s = Ok (a', r') s2 →
  clone T_init this s = Ok true (cloned s2 this a' r' r v n).
Proof.
  intros Hb Hp Hr Ha Hc Hne Hmin Halloc.
  destruct (clone_allocations_cells _ _ _ _ Halloc)
    as (Ha' & Hr' & Hne' & Hbs2 & Ha2 & Hr2 & Hrest).
  apply clone_allocations_Ok in Halloc as (s1 & H1 & H2).
  rewrite (clone_unfold _ _ _ _ _ _ Hb Hp (ref_count_shared _ _ _ _ _ Hb Hr Hc) Hne).
  unfold try_bad_alloc at 1. rewrite H1.
  unfold try_bad_alloc. rewrite H2.
  assert (Hb2 : boxes s2 !! this = Some b) by (by rewrite Hbs2).
  assert (Hcur : heap s2 !! a = Some (TCell v))
    by (rewrite Hrest by congruence; done).
  assert (Hold : heap s2 !! r = Some (IntCell n))
    by (rewrite Hrest by congruence; done).
  assert (a' ≠ r) by congruence.
  unfold cloned. unfold_members. exec_steps.
  destruct (Z.ltb_spec INT_MIN n) as [_|?]; [|lia].
  exec_steps. rewrite insert_insert_eq. reflexivity.
Qed.


End CloneSuccess.

(** ** Counting handles *)

Section Counting.
Implicit Types (bs : gmap handle smart_ptr) (b : smart_ptr) (h : handle) (r : loc).

Lemma aliases_insert_fresh bs h b r :
  bs !! h = None →
  aliases (<[h := b]> bs) r = (aliases bs r + refers b r)%nat.
Proof.
  intros Hh. unfold aliases, refers. rewrite map_filter_insert.
  cbn [snd]. destruct (decide (ref_ b = Some r)) as [Hr|Hr].
  - rewrite map_size_insert_None; [lia|].
    apply map_lookup_filter_None. by left.
  - rewrite delete_id by done. lia.
Qed.

Lemma aliases_insert bs h b r :
  aliases (<[h := b]> bs) r = (aliases (delete h bs) r + refers b r)%nat.
Proof.
  rewrite <-insert_delete_eq. apply aliases_insert_fresh, lookup_delete_eq.
Qed.

Lemma aliases_lookup bs h b r :
  bs !! h = Some b →
  aliases bs r = (aliases (delete h bs) r + refers b r)%nat.
Proof.
  intros Hh. rewrite <-(insert_delete_id bs h b) at 1 by done.
  apply aliases_insert_fresh, lookup_delete_eq.
Qed.

Lemma aliases_empty r : aliases ∅ r = 0%nat.
Proof. unfold aliases. by rewrite map_filter_empty, map_size_empty. Qed.

Lemma aliases_referenced bs h b r :
  bs !! h = Some b → ref_ b = Some r → (1 ≤ aliases bs r)%nat.
Proof.
  intros Hh Hr. rewrite (aliases_lookup _ _ _ _ Hh).
  unfold refers. rewrite decide_True by done. lia.
Qed.

End Counting.

Section CountCells.
Context {T : Type}.
Implicit Types (h : gmap loc (cell T)) (a r : loc).

Lemma cnt_insert_int h a n r :
  cnt (<[a := IntCell n]> h) r = if decide (a = r) then Some n else cnt h r.
Proof.
  unfold cnt. destruct (decide (a = r)) as [->|?].
  - by rewrite lookup_insert_eq.
  - by rewrite lookup_insert_ne.
Qed.

Lemma cnt_insert_T h a (v : T) r :
  cnt (<[a := TCell v]> h) r = if decide (a = r) then None else cnt h r.
Proof.
  unfold cnt. destruct (decide (a = r)) as [->|?].
  - by rewrite lookup_insert_eq.
  - by rewrite lookup_insert_ne.
Qed.

Lemma cnt_insert_Raw h a r :
  cnt (<[a := RawCell]> h) r = if decide (a = r) then None else cnt h r.
Proof.
  unfold cnt. destruct (decide (a = r)) as [->|?].
  - by rewrite lookup_insert_eq.
  - by rewrite lookup_insert_ne.
Qed.

Lemma cnt_delete h a r :
  cnt (delete a h) r = if decide (a = r) then None else cnt h r.
Proof.
  unfold cnt. destruct (decide (a = r)) as [->|?].
  - by rewrite lookup_delete_eq.
  - by rewrite lookup_delete_ne.
Qed.

Lemma cnt_int h r n : h !! r = Some (IntCell n) → cnt h r = Some n.
Proof. intros H. unfold cnt. by rewrite H. Qed.

Lemma cnt_T h a (v : T) : h !! a = Some (TCell v) → cnt h a = None.
Proof. intros H. unfold cnt. by rewrite H. Qed.

Lemma cnt_unallocated h a : h !! a = None → cnt h a = None.
Proof. intros H. unfold cnt. by rewrite H. Qed.

Lemma cnt_Some h r n : cnt h r = Some n → h !! r = Some (IntCell n).
Proof.
  unfold cnt. destruct (h !! r) as [[v|m|]|]; try discriminate. by intros [= ->].
Qed.

End CountCells.

(** ** Every operation preserves consistency *)

Ltac heap_facts :=
  repeat match goal with
    | H : delete _ _ !! _ = Some _ |- _ =>
        apply lookup_delete_Some in H; destruct H as [? H]
    | H : _ !! _ = Some (IntCell _) |- _ => apply cnt_int in H
    | H : _ !! _ = Some (TCell _) |- _ => apply cnt_T in H
    | H : heap _ !! _ = None |- _ => apply cnt_unallocated in H
    | H : (_ =? _) = true |- _ => apply Z.eqb_eq in H
    | H : (_ =? _) = false |- _ => apply Z.eqb_neq in H
    | H : (_ <? _) = true |- _ => apply Z.ltb_lt in H
    | H : (_ <? _) = false |- _ => apply Z.ltb_ge in H
    end.

Ltac count_cases :=
  repeat first
    [ rewrite cnt_delete | rewrite cnt_insert_int | rewrite cnt_insert_T
    | rewrite cnt_insert_Raw
    | match goal with
      | H : context [cnt (delete _ _) _] |- _ => rewrite cnt_delete in H
      | H : context [cnt (<[_ := IntCell _]> _) _] |- _ => rewrite cnt_insert_int in H
      | H : context [cnt (<[_ := TCell _]> _) _] |- _ => rewrite cnt_insert_T in H
      | H : context [cnt (<[_ := RawCell]> _) _] |- _ => rewrite cnt_insert_Raw in H
      end ];
  unfold refers in *; cbn [ref_] in *;
  repeat (case_decide; simplify_eq; try congruence);
  try congruence;
  unfold covers in *;
  try match goal with e : bool |- _ => destruct e end;
  try (left; lia);
  try (right; eexists; split; [eassumption || reflexivity | lia]).

Section Preservation.
Context {T : Type}.
Variable T_init : T.
Implicit Types (s : state T) (b : smart_ptr) (this rhs : handle).

Lemma two_state_insert s this b (hp : gmap loc (cell T)) (tb : Z) rc ad :
  two_state s → Empty b ∨ Occupied b →
  two_state (State hp (<[this := b]> (boxes s)) tb rc ad).
Proof.
  intros Htwo Hb h bx. cbn [boxes].
  rewrite lookup_insert_Some. intros [[_ <-]|[_ Hl]]; [done|by eapply Htwo].
Qed.

Lemma two_state_Empty s this b :
  two_state s → boxes s !! this = Some b → ref_ b = None → Empty b.
Proof.
  intros Htwo Hb Hr. destruct (Htwo _ _ Hb) as [?|[_ [r Hr']]]; [done|congruence].
Qed.

Lemma two_state_Occupied s this b r :
  two_state s → boxes s !! this = Some b → ref_ b = Some r → Occupied b.
Proof.
  intros Htwo Hb Hr. destruct (Htwo _ _ Hb) as [[_ ?]|?]; [congruence|done].
Qed.

Lemma two_state_copy b r :
  Empty b ∨ Occupied b → ref_ b = r →
  Empty (Box (ptr_ b) r) ∨ Occupied (Box (ptr_ b) r).
Proof. intros H <-. by destruct b. Qed.

Lemma dtor_consistent e s this s' :
  consistent e s → final_state (dtor this s) = Some s' →
  consistent e s' ∧ ∃ b, boxes s' !! this = Some b ∧ Empty b.
Proof.
  intros [Htwo Hcnt]. exec_cases.
  all: try (split;
            [split; [apply two_state_insert; [done|by left]|]
            |exists (Box None None); cbn [boxes]; by rewrite lookup_insert_eq]).
  1-3: intros r; pose proof (Hcnt r) as Hr; unfold counted in *; cbn [heap boxes];
    rewrite aliases_insert; rewrite (aliases_lookup _ _ _ r Heqo) in Hr;
    heap_facts; destruct Hr as [Hr | (m & Hm & Hle)]; count_cases.
  split; [done|]. eexists. split; [done|]. by eapply two_state_Empty.
Qed.

Lemma destroy_consistent e s this s' :
  consistent e s → final_state (destroy this s) = Some s' → consistent e s'.
Proof.
  intros Hs. unfold destroy, bind.
  destruct (dtor this s) as [[] s1|x s1|] eqn:Hd; cbn [final_state]; try done.
  - destruct (dtor_consistent e s this s1 Hs) as ([Htwo Hcnt] & b & Hb & [_ Hr]).
    { by rewrite Hd. }
    unfold end_lifetime. intros [= <-]. split.
    + intros h bx. cbn [boxes set_boxes].
      rewrite lookup_delete_Some. intros [_ ?]. by eapply Htwo.
    + intros r. pose proof (Hcnt r) as Hc. unfold counted in *.
      cbn [boxes heap set_boxes].
      rewrite (aliases_lookup _ _ _ r Hb) in Hc.
      unfold refers in Hc. rewrite Hr in Hc.
      rewrite decide_False in Hc by done.
      rewrite Nat.add_0_r in Hc. exact Hc.
  - intros [= <-]. revert Hd. unfold_members. msimpl.
    repeat (exec_step; msimpl; try (intros [=]; fail)).
Qed.

Lemma frame_consistent e s s' :
  boxes s' = boxes s →
  (∀ r n, cnt (heap s) r = Some n → cnt (heap s') r = Some n) →
  consistent e s → consistent e s'.
Proof.
  intros Hb Hh [Htwo Hcnt]. split.
  - intros h bx. rewrite Hb. apply Htwo.
  - intros r. unfold counted. rewrite Hb.
    destruct (Hcnt r) as [?|(n & Hn & Hle)]; [by left|].
    right. exists n. split; [by apply Hh|done].
Qed.

Ltac frame_tac Hs :=
  eapply frame_consistent; [| |exact Hs]; cbn [boxes heap]; [done|];
  intros ? ?; heap_facts;
  repeat first
    [ rewrite cnt_delete | rewrite cnt_insert_T | rewrite cnt_insert_Raw
    | match goal with
      | H : context [cnt (<[_ := RawCell]> _) _] |- _ => rewrite cnt_insert_Raw in H
      | H : context [cnt (<[_ := TCell _]> _) _] |- _ => rewrite cnt_insert_T in H
      end ];
  repeat case_decide; simplify_eq; congruence.

Lemma new_T_consistent e s v s' :
  consistent e s → final_state (discard (new_T v) s) = Some s' → consistent e s'.
Proof.
  intros Hs. exec_cases; [done|frame_tac Hs..].
Qed.

Lemma ctor_default_consistent e s this s' :
  consistent e s → boxes s !! this = None →
  final_state (ctor_default this s) = Some s' → consistent e s'.
Proof.
  intros [Htwo Hcnt] Hfresh. exec_cases. split.
  - apply two_state_insert; [done|by left].
  - intros r; pose proof (Hcnt r) as Hr; unfold counted in *; cbn [heap boxes].
    rewrite aliases_insert, delete_id by done.
    destruct Hr as [Hr|(m & Hm & Hle)]; count_cases.
Qed.

Lemma ctor_lref_consistent e s this a s' :
  consistent e s → boxes s !! this = None →
  final_state (ctor_lref this (Some a) s) = Some s' → consistent e s'.
Proof.
  intros Hs Hfresh.
  exec_cases; [done|frame_tac Hs|]; destruct Hs as [Htwo Hcnt].
  split; [apply two_state_insert; [done|right; split; by eexists]|].
  intros r; pose proof (Hcnt r) as Hr; unfold counted in *; cbn [heap boxes];
    rewrite aliases_insert, delete_id by done; heap_facts;
    destruct Hr as [Hr|(m & Hm & Hle)]; count_cases.
Qed.

Lemma ctor_rref_consistent e s this a s' :
  consistent e s → boxes s !! this = None →
  final_state (ctor_rref this (Some a) s) = Some s' → consistent e s'.
Proof.
  intros Hs Hfresh.
  exec_cases; [frame_tac Hs|frame_tac Hs|]; destruct Hs as [Htwo Hcnt].
  split; [apply two_state_insert; [done|right; split; by eexists]|].
  intros r; pose proof (Hcnt r) as Hr; unfold counted in *; cbn [heap boxes];
    rewrite aliases_insert, delete_id by done; heap_facts;
    destruct Hr as [Hr|(m & Hm & Hle)]; count_cases.
Qed.

Lemma ctor_copy_consistent e s this rhs s' :
  consistent e s → boxes s !! this = None →
  final_state (ctor_copy this rhs s) = Some s' → consistent e s'.
Proof.
  intros [Htwo Hcnt] Hfresh. exec_cases.
  pose proof (two_state_Occupied _ _ _ _ Htwo Heqo Heqo0) as [Hp _].
  pose proof (aliases_referenced _ _ _ _ Heqo Heqo0) as Href.
  split; [apply two_state_insert; [done|right; split; [done|by eexists]]|].
  intros r; pose proof (Hcnt r) as Hr; unfold counted in *; cbn [heap boxes].
  rewrite aliases_insert, delete_id by done. heap_facts.
  destruct Hr as [Hr|(m & Hm & Hle)]; count_cases.
Qed.

Lemma ctor_move_consistent e s this rhs s' :
  consistent e s → boxes s !! this = None →
  final_state (ctor_move this rhs s) = Some s' → consistent e s'.
Proof.
  intros [Htwo Hcnt] Hfresh.
  destruct (boxes s !! rhs) as [rb|] eqn:Hrb;
    [|unfold_members; msimpl; by rewrite Hrb].
  assert (this ≠ rhs) by congruence.
  rewrite (ctor_move_exec _ _ _ _ Hrb) by done.
  intros [= <-]. split.
  - intros h bx. cbn [boxes set_boxes]. rewrite !lookup_insert_Some.
    intros [[_ <-]|[_ [[_ <-]|[_ Hl]]]]; [by left|by eapply Htwo..].
  - intros r; pose proof (Hcnt r) as Hr; unfold counted in *.
    cbn [heap boxes set_boxes].
    rewrite aliases_insert, delete_insert_ne, aliases_insert by done.
    rewrite (delete_id (delete rhs (boxes s)) this)
      by (by rewrite lookup_delete_ne).
    rewrite (aliases_lookup _ _ _ r Hrb) in Hr.
    destruct Hr as [Hr|(m & Hm & Hle)]; count_cases.
Qed.

Lemma assign_move_consistent e s this rhs s' :
  consistent e s →
  (e = true → nothing_to_release (MoveAssign this rhs) s) →
  final_state (assign_move this rhs s) = Some s' → consistent e s'.
Proof.
  intros [Htwo Hcnt] Hrel.
  destruct (decide (this = rhs)) as [->|Hne].
  { rewrite assign_move_self. by intros [= <-]. }
  destruct (boxes s !! rhs) as [rb|] eqn:Hrb;
    [|unfold_members; rewrite decide_False by done; msimpl; by rewrite Hrb].
  destruct (boxes s !! this) as [b|] eqn:Hb;
    [|unfold_members; rewrite decide_False by done; msimpl; by rewrite Hrb, Hb].
  rewrite (assign_move_exec _ _ _ _ _ Hrb Hb) by done.
  intros [= <-]. split.
  - intros h bx. cbn [boxes set_boxes]. rewrite !lookup_insert_Some.
    intros [[_ <-]|[_ [[_ <-]|[_ Hl]]]]; [by left|by eapply Htwo..].
  - intros r; pose proof (Hcnt r) as Hr; unfold counted in *.
    cbn [heap boxes set_boxes].
    rewrite aliases_insert, delete_insert_ne, aliases_insert by done.
    rewrite (aliases_lookup _ _ _ r Hrb) in Hr.
    rewrite (aliases_lookup (delete rhs (boxes s)) this b r) in Hr
      by (by rewrite lookup_delete_ne).
    assert (Hnull : e = true → ref_ b = None).
    { intros He. destruct (Hrel He) as [?|(b' & Hb' & [_ ?])]; [done|congruence]. }
    destruct e; [specialize (Hnull eq_refl)|clear Hnull];
      destruct Hr as [Hr|(m & Hm & Hle)]; count_cases.
Qed.

Lemma assign_copy_consistent e s this rhs s' :
  consistent e s →
  final_state (assign_copy this rhs s) = Some s' → consistent e s'.
Proof.
  intros [Htwo Hcnt].
  unfold assign_copy. destruct (decide (this = rhs)) as [->|Hne].
  { by intros [= <-]. }
  exec_cases;
    match goal with
       | Hthis : boxes s !! this = Some ?b, Hrhs : boxes s !! rhs = Some ?rb |- _ =>
           pose proof (Htwo _ _ Hrhs);
           split; [apply two_state_insert; [done|by apply two_state_copy]|];
           intros r; pose proof (Hcnt r) as Hr; unfold counted in *;
           cbn [heap boxes];
           rewrite aliases_insert;
           rewrite (aliases_lookup (delete this (boxes s)) rhs rb r)
             by (by rewrite lookup_delete_ne);
           rewrite (aliases_lookup _ this b r Hthis),
             (aliases_lookup (delete this (boxes s)) rhs rb r) in Hr
             by (by rewrite lookup_delete_ne)
       end.
  all: heap_facts; destruct Hr as [Hr|(m & Hm & Hle)]; count_cases.
Qed.

Lemma clone_consistent e s this s' :
  consistent e s →
  final_state (discard (clone T_init this) s) = Some s' → consistent e s'.
Proof.
  intros Hs.
  exec_cases; try done; try (frame_tac Hs);
    destruct Hs as [Htwo Hcnt];
    (split; [apply two_state_insert; [done|right; split; by eexists]|]);
    repeat match goal with
      | H : <[_ := _]> _ !! _ = Some (TCell _) |- _ => clear H
      end;
    repeat match goal with
      | H : context [<[?k := _]> _ !! ?j] |- _ =>
          rewrite (lookup_insert_ne _ k j) in H by congruence
      end;
    intros r; pose proof (Hcnt r) as Hr; unfold counted in *; cbn [heap boxes];
    rewrite aliases_insert;
    match goal with
    | Hthis : boxes s !! this = Some ?b |- _ =>
        rewrite (aliases_lookup _ this b r Hthis) in Hr
    end;
    heap_facts; destruct Hr as [Hr|(m & Hm & Hle)]; count_cases.
Qed.
End Preservation.

(** ** Reachable states *)

Section Reachable.
Context {T : Type}.
Variable T_init : T.
Implicit Types (s : state T) (b : smart_ptr) (this : handle).

Lemma initial_consistent e : consistent e (initial (T:=T)).
Proof.
  split.
  - intros h b. unfold initial. cbn [boxes]. by rewrite lookup_empty.
  - intros r. left. unfold initial. cbn [boxes]. apply aliases_empty.
Qed.

Lemma observer_consistent e {A} (m : M A) s s' :
  (∀ s0, final_state (m s0) = Some s0 ∨ m s0 = UB) →
  consistent e s → final_state (discard m s) = Some s' → consistent e s'.
Proof.
  intros Hm Hs. unfold discard, bind, ret.
  destruct (Hm s) as [H|H]; destruct (m s); cbn [final_state] in *; congruence.
Qed.

Lemma ref_count_pure this s0 :
  final_state (ref_count this s0) = Some s0 ∨ ref_count (T:=T) this s0 = UB.
Proof.
  unfold_members. msimpl.
  repeat (exec_step; msimpl); auto.
Qed.

Lemma operator_star_pure this s0 :
  final_state (operator_star this s0) = Some s0 ∨ operator_star (T:=T) this s0 = UB.
Proof.
  unfold operator_star. unfold_members. msimpl.
  repeat (exec_step; msimpl); auto.
Qed.

Lemma operator_arrow_pure this s0 :
  final_state (operator_arrow this s0) = Some s0 ∨ operator_arrow (T:=T) this s0 = UB.
Proof.
  unfold operator_arrow. unfold_members. msimpl.
  repeat (exec_step; msimpl); auto.
Qed.

Lemma exec_op_consistent e o s s' :
  consistent e s → (e = true → nothing_to_release o s) →
  exec_op T_init o s = Some s' → consistent e s'.
Proof.
  intros Hs Hrel. unfold exec_op.
  destruct (storage_ok o s) eqn:Hok; [|done].
  destruct o; cbn [run_op storage_ok] in *;
    try apply bool_decide_eq_true in Hok.
  - by apply new_T_consistent.
  - intros [= <-]. by eapply frame_consistent.
  - intros [= <-]. by eapply frame_consistent.
  - by apply ctor_default_consistent.
  - by apply ctor_lref_consistent.
  - by apply ctor_rref_consistent.
  - by apply ctor_copy_consistent.
  - by apply ctor_move_consistent.
  - by apply assign_copy_consistent.
  - by apply assign_move_consistent.
  - by apply clone_consistent.
  - apply observer_consistent; [apply ref_count_pure|done].
  - apply observer_consistent; [apply operator_star_pure|done].
  - apply observer_consistent; [apply operator_arrow_pure|done].
  - by apply destroy_consistent.
Qed.

Lemma reachable_consistent s : reachable T_init s → consistent false s.
Proof.
  induction 1 as [|s o s' _ IH Hstep].
  - apply initial_consistent.
  - by eapply exec_op_consistent.
Qed.

Lemma releasing_consistent s : reachable_releasing T_init s → consistent true s.
Proof.
  induction 1 as [|s o s' _ IH Hrel Hstep].
  - apply initial_consistent.
  - eapply exec_op_consistent; [exact IH| |exact Hstep]. by intros _.
Qed.

Lemma consistent_exact_count s : consistent true s → exact_count s.
Proof.
  intros [_ Hcnt] h b r Hb Hr.
  pose proof (aliases_referenced _ _ _ _ Hb Hr) as Hal.
  destruct (Hcnt r) as [Hz|(n & Hn & Hcov)]; [lia|].
  cbn [covers] in Hcov. apply cnt_Some in Hn.
  exists n. split; [done|]. split; lia.
Qed.

(** As long as no move assignment targets a box that still owns something,
    every count equals the number of live handles that alias its value. *)
Theorem exact_count_when_releasing s :
  reachable_releasing T_init s → exact_count s.
Proof. intros H. by apply consistent_exact_count, releasing_consistent. Qed.

Lemma exec_reachable os s s' :
  reachable T_init s → exec T_init os s = Some s' → reachable T_init s'.
Proof.
  revert s. induction os as [|o os IH]; intros s Hs; cbn [exec].
  - by intros [= <-].
  - destruct (exec_op T_init o s) as [s1|] eqn:Hop; [|done].
    apply IH. by eapply reachable_step.
Qed.

(** C8. In every reachable state and for every live box, [ref_count()]
    returns without touching the state (no allocation, no exception); the
    number returned is 0 exactly when the box is Empty, and for an Occupied
    box it is the value of the shared count, which is at least 1. *)
Theorem ref_count_zero_iff_Empty s this b :
  reachable T_init s → boxes s !! this = Some b →
  ∃ n, ref_count this s = Ok n s ∧
       (n = 0 ↔ Empty b) ∧
       (Occupied b →
        ∃ r, ref_ b = Some r ∧ heap s !! r = Some (IntCell n) ∧ 1 ≤ n).
Proof.
  intros Hreach Hb.
  destruct (reachable_consistent _ Hreach) as [Htwo Hcnt].
  destruct (ref_ b) as [r|] eqn:Hr.
  - pose proof (aliases_referenced _ _ _ _ Hb Hr) as Hal.
    destruct (Hcnt r) as [Hz|(n & Hn & Hle)]; [lia|].
    cbn [covers] in Hle. apply cnt_Some in Hn.
    exists n. split; [by eapply ref_count_shared|]. split.
    + split; [lia|]. intros [_ ?]. congruence.
    + intros _. exists r. split; [done|]. split; [done|lia].
  - exists 0. split; [by eapply ref_count_Empty|]. split.
    + split; [|done]. intros _. by eapply two_state_Empty.
    + intros [_ [r ?]]. congruence.
Qed.

End Reachable.

(** ** Where the code departs from the data model *)

(** C3. Move assignment onto an Occupied destination does not release the
    destination's previous pair.  Onto a sole owner: the old value and its
    count (still 1) stay allocated although no handle refers to them.  Onto
    a destination with a sibling: the sibling still reports a count of 2. *)
Theorem assign_move_skips_release :
  (exec 0 prog_move_onto_sole_owner initial = Some after_move_onto_sole_owner ∧
   boxes after_move_onto_sole_owner !! 1%positive
     = Some (Box (Some 3%positive) (Some 4%positive)) ∧
   heap after_move_onto_sole_owner !! 1%positive = Some (TCell 42) ∧
   heap after_move_onto_sole_owner !! 2%positive = Some (IntCell 1) ∧
   aliases (boxes after_move_onto_sole_owner) 2%positive = 0%nat) ∧
  (exec 0 prog_move_onto_shared initial = Some after_move_onto_shared ∧
   boxes after_move_onto_shared !! 2%positive
     = Some (Box (Some 3%positive) (Some 4%positive)) ∧
   boxes after_move_onto_shared !! 1%positive
     = Some (Box (Some 1%positive) (Some 2%positive)) ∧
   ref_count 1%positive after_move_onto_shared = Ok 2 after_move_onto_shared).
Proof.
  split.
  - split; [by vm_compute|]. split; [by vm_compute|]. split; [by vm_compute|].
    split; by vm_compute.
  - split; [by vm_compute|]. split; [by vm_compute|]. split; by vm_compute.
Qed.

(** C2. After a move assignment onto a box that shares its value, the
    remaining sibling is the only handle on the value but its count is 2:
    the state is reachable and violates the invariant of the data model. *)
Theorem exact_count_broken_by_assign_move :
  exec 0 prog_move_onto_shared initial = Some after_move_onto_shared ∧
  reachable 0 after_move_onto_shared ∧
  ref_count 1%positive after_move_onto_shared = Ok 2 after_move_onto_shared ∧
  aliases (boxes after_move_onto_shared) 2%positive = 1%nat ∧
  ¬ exact_count after_move_onto_shared.
Proof.
  assert (Hex : exec 0 prog_move_onto_shared initial = Some after_move_onto_shared)
    by (by vm_compute).
  split; [exact Hex|].
  split; [by eapply exec_reachable; [apply reachable_initial|exact Hex]|].
  split; [by vm_compute|].
  assert (Hal : aliases (boxes after_move_onto_shared) 2%positive = 1%nat)
    by (by vm_compute).
  split; [exact Hal|].
  intros Hinv.
  destruct (Hinv 1%positive (Box (Some 1%positive) (Some 2%positive)) 2%positive)
    as (n & Hn & _ & Hcount); [by vm_compute|done|].
  rewrite Hal in Hcount.
  assert (Hcell : heap after_move_onto_shared !! 2%positive = Some (IntCell 2))
    by (by vm_compute).
  rewrite Hcell in Hn. injection Hn as <-. discriminate Hcount.
Qed.

(** C4. Copy construction from an Empty box dereferences a null count
    pointer; copy assignment from the same box checks for it and succeeds. *)
Theorem ctor_copy_from_Empty_undefined :
  exec 0 prog_two_empty initial = Some two_empty ∧
  boxes two_empty !! 1%positive = Some (Box None None) ∧
  ctor_copy 3%positive 1%positive two_empty = UB ∧
  assign_copy 2%positive 1%positive two_empty = Ok tt two_empty.
Proof.
  split; [by vm_compute|]. split; [by vm_compute|]. split; by vm_compute.
Qed.

(** C7 as stated fails.  The box [smart_ptr(T* &)] builds from a null raw
    pointer has a count of 1 and no value: it is not Empty (and not
    Occupied), [ref_count()] is 1, and dereferencing it raises. *)
Lemma deref_raises_on_non_Empty_box :
  ctor_lref 1%positive None initial = Ok tt null_raw_box ∧
  boxes null_raw_box !! 1%positive = Some (Box None (Some 1%positive)) ∧
  ref_count 1%positive null_raw_box = Ok 1 null_raw_box ∧
  operator_star 1%positive null_raw_box = Throw null_ptr_exception null_raw_box ∧
  operator_arrow 1%positive null_raw_box = Throw null_ptr_exception null_raw_box ∧
  ¬ Empty (Box None (Some 1%positive)) ∧
  ¬ (raises (operator_star 1%positive null_raw_box) null_ptr_exception
       ↔ Empty (Box None (Some 1%positive))).
Proof.
  split; [by vm_compute|]. split; [by vm_compute|]. split; [by vm_compute|].
  assert (Hstar : operator_star 1%positive null_raw_box
                  = Throw null_ptr_exception null_raw_box) by (by vm_compute).
  split; [exact Hstar|]. split; [by vm_compute|].
  assert (Hne : ¬ Empty (Box None (Some 1%positive))) by (intros [_ [=]]).
  split; [exact Hne|].
  intros [Hraise _]. apply Hne, Hraise. rewrite Hstar. by eexists.
Qed.

(** ** The theorems at concrete states *)

Lemma clone_strong_guarantee_witness :
  boxes (shared3_recording 4) !! 1%positive
    = Some (Box (Some 1%positive) (Some 2%positive)) ∧
  ref_count 1%positive (shared3_recording 4) = Ok 3 (shared3_recording 4) ∧
  clone_allocations 0 (shared3_recording 4)
    = Throw bad_alloc shared3_count_alloc_failed ∧
  ∃ s', clone 0 1%positive (shared3_recording 4) = Throw bad_alloc s' ∧
        boxes s' = boxes (shared3_recording 4) ∧
        (∀ h m, ref_count h (shared3_recording 4) = Ok m (shared3_recording 4) →
                ref_count h s' = Ok m s') ∧
        (∀ x c, heap (shared3_recording 4) !! x = Some c → heap s' !! x = Some c) ∧
        (∀ p s1, new_T 0 (shared3_recording 4) = Ok p s1 → heap s' !! p = None) ∧
        (heap s' = heap (shared3_recording 4) ∨
         ∃ q, heap (shared3_recording 4) !! q = None ∧
              heap s' = <[q := RawCell]> (heap (shared3_recording 4)) ∧
              recordaddrs (shared3_recording 4) = true ∧ recordaddrs s' = false) ∧
        (recordaddrs (shared3_recording 4) = false →
         s' = set_throwBadAlloc 1 (shared3_recording 4)).
Proof.
  split; [vm_compute; reflexivity|].
  split; [vm_compute; reflexivity|].
  assert (Hfail : clone_allocations 0 (shared3_recording 4)
                  = Throw bad_alloc shared3_count_alloc_failed)
    by (vm_compute; reflexivity).
  split; [exact Hfail|].
  apply (clone_strong_guarantee 0 (shared3_recording 4) 1%positive
           (Box (Some 1%positive) (Some 2%positive)) 1%positive 3).
  - vm_compute; reflexivity.
  - reflexivity.
  - vm_compute; reflexivity.
  - lia.
  - exists shared3_count_alloc_failed. exact Hfail.
Defined.


Lemma raw_ctor_alloc_failure_witness :
  heap raw_value_alloc_fails !! 1%positive = Some (TCell 0) ∧
  throwBadAlloc raw_value_alloc_fails = 1 ∧
  new_int 1 raw_value_recording = Throw bad_alloc raw_value_block_lost ∧
  (ctor_lref 1%positive (Some 1%positive) raw_value_alloc_fails
     = Throw bad_alloc raw_value_alloc_fails ∧
   ctor_rref 1%positive (Some 1%positive) raw_value_alloc_fails
     = Throw bad_alloc (deleted 1%positive raw_value_alloc_fails)) ∧
  (ctor_lref 1%positive (Some 1%positive) raw_value_recording
     = Throw bad_alloc raw_value_block_lost ∧
   ctor_rref 1%positive (Some 1%positive) raw_value_recording
     = Throw bad_alloc (deleted 1%positive raw_value_block_lost)).
Proof.
  assert (H1 : heap raw_value_alloc_fails !! 1%positive = Some (TCell 0))
    by (vm_compute; reflexivity).
  assert (H2 : heap raw_value_recording !! 1%positive = Some (TCell 0))
    by (vm_compute; reflexivity).
  assert (Hnew : new_int 1 raw_value_recording = Throw bad_alloc raw_value_block_lost)
    by (vm_compute; reflexivity).
  split; [exact H1|]. split; [reflexivity|]. split; [exact Hnew|]. split.
  - destruct (raw_ctor_alloc_failure raw_value_alloc_fails 1%positive 1%positive 0 H1)
      as [Hone _].
    apply Hone. reflexivity.
  - destruct (raw_ctor_alloc_failure raw_value_recording 1%positive 1%positive 0 H2)
      as [_ Hgen].
    destruct (Hgen raw_value_block_lost Hnew) as (Hl & _ & _ & Hr & _).
    split; [exact Hl|exact Hr].
Defined.

Lemma deref_raises_iff_null_value_witness :
  boxes null_raw_box !! 1%positive = Some (Box None (Some 1%positive)) ∧
  (raises (operator_star 1%positive null_raw_box) null_ptr_exception
     ↔ ptr_ (Box None (Some 1%positive)) = None) ∧
  (raises (operator_arrow 1%positive null_raw_box) null_ptr_exception
     ↔ ptr_ (Box None (Some 1%positive)) = None).
Proof.
  split; [vm_compute; reflexivity|].
  destruct (deref_raises_iff_null_value null_raw_box 1%positive
              (Box None (Some 1%positive)))
    as (Hstar & Harrow & _).
  - vm_compute; reflexivity.
  - split; [exact Hstar|exact Harrow].
Defined.

Lemma ref_count_zero_iff_Empty_witness :
  boxes after_move_onto_shared !! 1%positive
    = Some (Box (Some 1%positive) (Some 2%positive)) ∧
  ∃ n, ref_count 1%positive after_move_onto_shared
         = Ok n after_move_onto_shared ∧
       (n = 0 ↔ Empty (Box (Some 1%positive) (Some 2%positive))).
Proof.
  split; [vm_compute; reflexivity|].
  destruct (ref_count_zero_iff_Empty 0 after_move_onto_shared 1%positive
              (Box (Some 1%positive) (Some 2%positive)))
    as (n & Hn & Hiff & _).
  - apply (exec_reachable 0 prog_move_onto_shared initial);
      [apply reachable_initial|vm_compute; reflexivity].
  - vm_compute; reflexivity.
  - exists n. split; [exact Hn|exact Hiff].
Defined.

Lemma move_transfers_count_witness :
  boxes (shared3 0) !! 1%positive
    = Some (Box (Some 1%positive) (Some 2%positive)) ∧
  ref_count 1%positive (shared3 0) = Ok 3 (shared3 0) ∧
  (∃ s', ctor_move 4%positive 1%positive (shared3 0) = Ok tt s' ∧
         ref_count 1%positive s' = Ok 0 s' ∧
         ref_count 4%positive s' = Ok 3 s') ∧
  assign_move 1%positive 1%positive (shared3 0) = Ok tt (shared3 0).
Proof.
  split; [vm_compute; reflexivity|].
  split; [vm_compute; reflexivity|].
  destruct (move_transfers_count (shared3 0) 4%positive 1%positive
              (Box (Some 1%positive) (Some 2%positive)) 3)
    as ((s' & Hmove & _ & Hsrc & Hdst & _) & _ & Hself).
  - vm_compute; reflexivity.
  - vm_compute; reflexivity.
  - lia.
  - split; [|exact Hself]. exists s'. split; [exact Hmove|].
    split; [exact Hsrc|exact Hdst].
Defined.

Lemma deref_modifies_nothing_witness :
  boxes (shared3 0) !! 2%positive
    = Some (Box (Some 1%positive) (Some 2%positive)) ∧
  final_state (operator_star 2%positive (shared3 0)) = Some (shared3 0) ∧
  final_state (operator_arrow 2%positive (shared3 0)) = Some (shared3 0).
Proof.
  split; [vm_compute; reflexivity|].
  apply (deref_modifies_nothing (shared3 0) 2%positive
           (Box (Some 1%positive) (Some 2%positive))).
  vm_compute; reflexivity.
Defined.

(** * Beyond the claims *)

(** ** Destruction, copying, construction *)

Section Destructor.
Context {T : Type}.
Implicit Types (s : state T) (b : smart_ptr) (this rhs : handle) (a r : loc).

Lemma dtor_Empty_exec s this b :
  boxes s !! this = Some b → ref_ b = None → dtor this s = Ok tt s.
Proof. intros Hb Hr. unfold_members. exec_steps. reflexivity. Qed.

Lemma dtor_sole_owner_exec s this b p r :
  boxes s !! this = Some b → ptr_ b = p → ref_ b = Some r →
  heap s !! r = Some (IntCell 1) →
  match p with
  | Some a => ∃ v, heap s !! a = Some (TCell v)
  | None => True
  end →
  dtor this s =
    Ok tt (State (match p with
                  | Some a => delete a (delete r (heap s))
                  | None => delete r (heap s)
                  end)
             (<[this := Box None None]> (boxes s)) (throwBadAlloc s)
             (recordaddrs s)
             (match p with
              | Some a =>
                  erase_if (recordaddrs s) a (erase_if (recordaddrs s) r (addrs s))
              | None => erase_if (recordaddrs s) r (addrs s)
              end)).
Proof.
  intros Hb Hp Hr Hc Ha.
  unfold_members. exec_steps.
  change (1 =? 1) with true. exec_steps.
  destruct p as [a|].
  - destruct Ha as [v Ha]. assert (r ≠ a) by congruence.
    exec_steps. state_norm. reflexivity.
  - exec_steps. state_norm. reflexivity.
Qed.

Lemma dtor_shared_exec s this b r n :
  boxes s !! this = Some b → ref_ b = Some r →
  heap s !! r = Some (IntCell n) → n ≠ 1 → INT_MIN < n →
  dtor this s =
    Ok tt (State (<[r := IntCell (n - 1)]> (heap s))
             (<[this := Box None None]> (boxes s)) (throwBadAlloc s)
             (recordaddrs s) (addrs s)).
Proof.
  intros Hb Hr Hc Hn Hmin.
  unfold_members. exec_steps.
  destruct (Z.eqb_spec n 1) as [?|_]; [done|]. exec_steps.
  destruct (Z.ltb_spec INT_MIN n) as [_|?]; [|lia]. exec_steps.
  state_norm. reflexivity.
Qed.

(** X1. The destructor applies the release rule: on a box without a count
    it does nothing; the sole owner deletes the count and the value; any
    other owner takes one off the shared count, which every sibling then
    reports, and leaves the value alone. In each case the box ends with
    both pointers null. *)
Theorem dtor_release_rule s this b :
  boxes s !! this = Some b →
  (ref_ b = None → dtor this s = Ok tt s) ∧
  (∀ a r v,
     ptr_ b = Some a → ref_ b = Some r →
     heap s !! a = Some (TCell v) → heap s !! r = Some (IntCell 1) →
     ∃ s', dtor this s = Ok tt s' ∧
           boxes s' = <[this := Box None None]> (boxes s) ∧
           heap s' = delete a (delete r (heap s)) ∧
           heap s' !! a = None ∧ heap s' !! r = None) ∧
  (∀ r n,
     ref_ b = Some r → heap s !! r = Some (IntCell n) → 1 < n →
     ∃ s', dtor this s = Ok tt s' ∧
           boxes s' = <[this := Box None None]> (boxes s) ∧
           heap s' = <[r := IntCell (n - 1)]> (heap s) ∧
           ∀ h bh, h ≠ this → boxes s !! h = Some bh → ref_ bh = Some r →
                   boxes s' !! h = Some bh ∧ ref_count h s' = Ok (n - 1) s').
Proof.
  intros Hb. split; [|split].
  - intros Hr. by eapply dtor_Empty_exec.
  - intros a r v Hp Hr Ha Hc. assert (r ≠ a) by congruence.
    eexists. split.
    { eapply (dtor_sole_owner_exec _ _ _ (Some a)); eauto. }
    cbn [heap boxes]. split; [done|]. split; [done|].
    split; [apply lookup_delete_eq|].
    by rewrite lookup_delete_ne, lookup_delete_eq.
  - intros r n Hr Hc Hn.
    eexists. split; [eapply dtor_shared_exec; eauto; unfold INT_MIN; lia|].
    cbn [heap boxes]. split; [done|]. split; [done|].
    intros h bh Hh Hbh Hrh.
    assert (Hlive : <[this := Box None None]> (boxes s) !! h = Some bh)
      by (by rewrite lookup_insert_ne).
    split; [done|]. eapply ref_count_shared; [exact Hlive|done|].
    cbn [heap]. apply lookup_insert_eq.
Qed.

Lemma destroy_shared_exec s this b r n :
  boxes s !! this = Some b → ref_ b = Some r →
  heap s !! r = Some (IntCell n) → n ≠ 1 → INT_MIN < n →
  destroy this s =
    Ok tt (State (<[r := IntCell (n - 1)]> (heap s)) (delete this (boxes s))
             (throwBadAlloc s) (recordaddrs s) (addrs s)).
Proof.
  intros Hb Hr Hc Hn Hmin. unfold destroy, bind.
  rewrite (dtor_shared_exec _ _ _ _ _ Hb Hr Hc Hn Hmin).
  unfold end_lifetime, set_boxes. cbn [heap boxes throwBadAlloc recordaddrs addrs].
  by rewrite delete_insert_eq.
Qed.

Lemma destroy_sole_owner_exec s this b p r :
  boxes s !! this = Some b → ptr_ b = p → ref_ b = Some r →
  heap s !! r = Some (IntCell 1) →
  match p with
  | Some a => ∃ v, heap s !! a = Some (TCell v)
  | None => True
  end →
  destroy this s =
    Ok tt (State (match p with
                  | Some a => delete a (delete r (heap s))
                  | None => delete r (heap s)
                  end)
             (delete this (boxes s)) (throwBadAlloc s)
             (recordaddrs s)
             (match p with
              | Some a =>
                  erase_if (recordaddrs s) a (erase_if (recordaddrs s) r (addrs s))
              | None => erase_if (recordaddrs s) r (addrs s)
              end)).
Proof.
  intros Hb Hp Hr Hc Ha. unfold destroy, bind.
  rewrite (dtor_sole_owner_exec _ _ _ _ _ Hb Hp Hr Hc Ha).
  unfold end_lifetime, set_boxes. cbn [heap boxes throwBadAlloc recordaddrs addrs].
  by rewrite delete_insert_eq.
Qed.

End Destructor.

Section CopyCtor.
Context {T : Type}.
Implicit Types (s : state T) (b : smart_ptr) (this rhs : handle) (a r : loc).

Lemma ctor_copy_exec s this rhs b r n :
  boxes s !! rhs = Some b → ref_ b = Some r →
  heap s !! r = Some (IntCell n) → n < INT_MAX →
  ctor_copy this rhs s =
    Ok tt (State (<[r := IntCell (n + 1)]> (heap s)) (<[this := b]> (boxes s))
             (throwBadAlloc s) (recordaddrs s) (addrs s)).
Proof.
  intros Hb Hr Hc Hn. unfold_members. exec_steps.
  destruct (Z.ltb_spec n INT_MAX) as [_|?]; [|lia]. exec_steps.
  state_norm. destruct b as [p q]. cbn [ptr_ ref_] in *. by subst q.
Qed.

(** X2. Copy construction from a box with a count below [INT_MAX]
    allocates nothing: the new box gets the same two pointers, the shared
    count goes up by one and every handle on it reports the new count. *)
Theorem ctor_copy_shares s this rhs b r n :
  boxes s !! rhs = Some b → ref_ b = Some r →
  heap s !! r = Some (IntCell n) → n < INT_MAX → this ≠ rhs →
  ∃ s', ctor_copy this rhs s = Ok tt s' ∧
        boxes s' !! this = Some b ∧ boxes s' !! rhs = Some b ∧
        ref_count this s' = Ok (n + 1) s' ∧
        ref_count rhs s' = Ok (n + 1) s' ∧
        (∀ h bh, boxes s !! h = Some bh → ref_ bh = Some r →
                 ref_count h s' = Ok (n + 1) s') ∧
        dom (heap s') = dom (heap s) ∧
        throwBadAlloc s' = throwBadAlloc s.
Proof.
  intros Hb Hr Hc Hn Hne.
  eexists. split; [by eapply ctor_copy_exec|].
  assert (Hthis : (<[this := b]> (boxes s)) !! this = Some b)
    by apply lookup_insert_eq.
  assert (Hrhs : (<[this := b]> (boxes s)) !! rhs = Some b)
    by (by rewrite lookup_insert_ne).
  cbn [boxes heap throwBadAlloc].
  split; [done|]. split; [done|].
  split; [eapply ref_count_shared; [exact Hthis|done|apply lookup_insert_eq]|].
  split; [eapply ref_count_shared; [exact Hrhs|done|apply lookup_insert_eq]|].
  split; [|split; [|done]].
  - intros h bh Hh Hrh. destruct (decide (h = this)) as [->|Hd].
    + eapply ref_count_shared; [exact Hthis|done|apply lookup_insert_eq].
    + eapply ref_count_shared;
        [cbn [boxes]; by rewrite lookup_insert_ne|done|apply lookup_insert_eq].
  - apply dom_insert_lookup_L. by eexists.
Qed.

(** X3. Copying a box and letting the copy go out of scope gives back
    exactly the state before the copy. *)
Theorem copy_then_destroy_restores s this rhs b r n :
  boxes s !! this = None →
  boxes s !! rhs = Some b → ref_ b = Some r →
  heap s !! r = Some (IntCell n) → 1 ≤ n → n < INT_MAX →
  bind (ctor_copy this rhs) (λ _, destroy this) s = Ok tt s.
Proof.
  intros Hfresh Hb Hr Hc Hn1 Hn2. unfold bind at 1.
  rewrite (ctor_copy_exec _ _ _ _ _ _ Hb Hr Hc Hn2).
  erewrite destroy_shared_exec;
    [|cbn [boxes]; apply lookup_insert_eq|done|cbn [heap]; apply lookup_insert_eq
     |lia|unfold INT_MIN; lia].
  cbn [heap boxes throwBadAlloc].
  rewrite insert_insert_eq, delete_insert_id by done.
  replace (n + 1 - 1) with n by lia.
  rewrite insert_id by done. by destruct s.
Qed.

End CopyCtor.

Section RawCtorSuccess.
Context {T : Type}.
Implicit Types (s : state T) (b : smart_ptr) (this rhs : handle) (a r : loc).

(** With the failure injection disarmed a [new]-expression returns a
    block that was not in use, with the object constructed in it, and
    leaves the counter alone. *)
Lemma new_disarmed (c : cell T) s :
  throwBadAlloc s ≤ 0 →
  ∃ p ad, heap s !! p = None ∧
    bind operator_new (λ a, bind (init_cell a c) (λ _, ret a)) s =
      Ok p (State (<[p := c]> (heap s)) (boxes s) (throwBadAlloc s) (recordaddrs s) ad).
Proof.
  intros Ht. destruct (operator_new_disarmed s Ht) as [ad E].
  exists (fresh (blocks s)), ad. split; [apply fresh_blocks|].
  unfold bind. rewrite E. unfold init_cell, ret. state_norm. done.
Qed.

Lemma new_int_disarmed s n :
  throwBadAlloc s ≤ 0 →
  ∃ p ad, heap s !! p = None ∧
    new_int n s =
      Ok p (State (<[p := IntCell n]> (heap s)) (boxes s) (throwBadAlloc s)
              (recordaddrs s) ad).
Proof. apply (new_disarmed (IntCell n)). Qed.

Lemma new_T_disarmed s (v : T) :
  throwBadAlloc s ≤ 0 →
  ∃ p ad, heap s !! p = None ∧
    new_T v s =
      Ok p (State (<[p := TCell v]> (heap s)) (boxes s) (throwBadAlloc s)
              (recordaddrs s) ad).
Proof. apply (new_disarmed (TCell v)). Qed.

(** Without recording a [new]-expression that does not throw counts down
    once and touches nothing but the block it returns. *)
Lemma new_T_off s (v : T) :
  recordaddrs s = false → throwBadAlloc s ≠ 1 →
  new_T v s =
    Ok (fresh (blocks s))
       (State (<[fresh (blocks s) := TCell v]> (heap s)) (boxes s)
          (countdown (throwBadAlloc s)) false (addrs s)).
Proof.
  intros Hrec Ht. unfold new_T, bind. rewrite operator_new_off by done.
  unfold init_cell, ret. state_norm. done.
Qed.

Lemma new_int_off s n :
  recordaddrs s = false → throwBadAlloc s ≠ 1 →
  new_int n s =
    Ok (fresh (blocks s))
       (State (<[fresh (blocks s) := IntCell n]> (heap s)) (boxes s)
          (countdown (throwBadAlloc s)) false (addrs s)).
Proof.
  intros Hrec Ht. unfold new_int, bind. rewrite operator_new_off by done.
  unfold init_cell, ret. state_norm. done.
Qed.

(** X4. When the count is allocated (as it is whenever the failure
    injection is disarmed), the two raw-value constructors do the same
    thing: the box holds the raw pointer and the fresh count of 1, no
    other block of the heap and no other box changes, and dereferencing
    gives the raw pointer back (or raises, for a null raw pointer). *)
Theorem raw_ctors_agree_on_success s this raw :
  (throwBadAlloc s ≤ 0 → ∃ c s1, new_int 1 s = Ok c s1) ∧
  (∀ c s1, new_int 1 s = Ok c s1 →
   ∃ s',
    ctor_lref this raw s = Ok tt s' ∧ ctor_rref this raw s = Ok tt s' ∧
    heap s !! c = None ∧
    boxes s' !! this = Some (Box raw (Some c)) ∧
    ref_count this s' = Ok 1 s' ∧
    (∀ x, x ≠ c → heap s' !! x = heap s !! x) ∧
    (∀ h, h ≠ this → boxes s' !! h = boxes s !! h) ∧
    operator_star this s' =
      match raw with
      | Some a => Ok a s'
      | None => Throw null_ptr_exception s'
      end).
Proof.
  split.
  { intros Ht. destruct (new_int_disarmed s 1 Ht) as (p & ad & _ & E). eauto. }
  intros c s1 Hnew.
  destruct (new_int_inv _ _ _ _ Hnew) as (Hc & Hh1 & Hbs1 & _).
  set (s' := set_boxes (<[this := Box raw (Some c)]> (boxes s1)) s1).
  assert (Hthis : boxes s' !! this = Some (Box raw (Some c)))
    by apply lookup_insert_eq.
  exists s'.
  split; [unfold ctor_lref, bind; by rewrite Hnew|].
  split; [unfold ctor_rref, try_bad_alloc; by rewrite Hnew|].
  split; [done|]. split; [done|].
  split.
  { eapply ref_count_shared; [exact Hthis|done|].
    unfold s'; cbn [heap set_boxes]. rewrite Hh1. apply lookup_insert_eq. }
  split.
  { intros x Hx. unfold s'; cbn [heap set_boxes]. rewrite Hh1.
    by rewrite lookup_insert_ne. }
  split.
  { intros h Hh. unfold s'; cbn [boxes set_boxes].
    rewrite lookup_insert_ne by done. by rewrite Hbs1. }
  by rewrite (operator_star_live _ _ _ Hthis).
Qed.

End RawCtorSuccess.

(** ** Copy assignment *)

Section CopyAssign.
Context {T : Type}.
Implicit Types (s : state T) (b : smart_ptr) (this rhs : handle) (a r : loc).

Lemma assign_copy_unfold_Occupied s this rhs rb :
  this ≠ rhs → boxes s !! rhs = Some rb → is_Some (ref_ rb) →
  assign_copy this rhs s = bind (dtor this) (λ _, ctor_copy this rhs) s.
Proof.
  intros Hne Hrb [r1 Hr1].
  unfold assign_copy.
  destruct (decide (this = rhs)) as [|_]; [done|].
  unfold_members. msimpl.
  repeat (exec_step; msimpl).
  all: try reflexivity.
  all: heap_facts; try lia; try congruence.
  all: state_norm; try reflexivity.
Qed.

Lemma assign_copy_unfold_Empty s this rhs b rb :
  this ≠ rhs → boxes s !! this = Some b → boxes s !! rhs = Some rb →
  Empty rb → Empty b ∨ Occupied b →
  assign_copy this rhs s = dtor this s.
Proof.
  intros Hne Hb Hrb [Hp1 Hr1] Hst.
  unfold assign_copy.
  destruct (decide (this = rhs)) as [|_]; [done|].
  unfold_members. msimpl.
  repeat (exec_step; msimpl).
  all: try reflexivity.
  all: heap_facts; try lia; try congruence.
  all: state_norm; try reflexivity.
  destruct Hst as [[Hp Hr]|[_ [? ?]]]; [|congruence].
  destruct b as [p q]. cbn [ptr_ ref_] in *. subst p q.
  rewrite insert_id by done. by destruct s.
Qed.

(** X5. The two branches of copy assignment (more than one owner, at most
    one owner) have the same effect in every state: the operator is the
    destructor body followed by adopting the pair of the right-hand side. *)
Theorem assign_copy_branches_agree s this rhs :
  assign_copy this rhs s = assign_copy_uniform this rhs s.
Proof.
  unfold assign_copy, assign_copy_uniform.
  destruct (decide (this = rhs)) as [|Hne]; [done|].
  unfold_members. msimpl.
  repeat (exec_step; msimpl).
  all: try reflexivity.
  all: heap_facts; try lia.
  all: state_norm; try reflexivity.
Qed.

(** X6. Copy assignment from a box that has a count is the destructor body
    on the destination followed by copy construction in place. *)
Theorem assign_copy_is_release_then_copy s this rhs rb :
  this ≠ rhs → boxes s !! rhs = Some rb → is_Some (ref_ rb) →
  assign_copy this rhs s = bind (dtor this) (λ _, ctor_copy this rhs) s.
Proof.
  intros Hne Hrb [r1 Hr1].
  unfold assign_copy.
  destruct (decide (this = rhs)) as [|_]; [done|].
  unfold_members. msimpl.
  repeat (exec_step; msimpl).
  all: try reflexivity.
  all: heap_facts; try lia; try congruence.
  all: state_norm; try reflexivity.
Qed.

(** X7. Copy assignment from an Empty box is exactly the destructor body
    on the destination: what the destination held is released and it ends
    Empty. *)
Theorem assign_copy_from_Empty s this rhs b rb :
  this ≠ rhs → boxes s !! this = Some b → boxes s !! rhs = Some rb →
  Empty rb → Empty b ∨ Occupied b →
  assign_copy this rhs s = dtor this s.
Proof.
  intros Hne Hb Hrb [Hp1 Hr1] Hst.
  unfold assign_copy.
  destruct (decide (this = rhs)) as [|_]; [done|].
  unfold_members. msimpl.
  repeat (exec_step; msimpl).
  all: try reflexivity.
  all: heap_facts; try lia; try congruence.
  all: state_norm; try reflexivity.
  destruct Hst as [[Hp Hr]|[_ [? ?]]]; [|congruence].
  destruct b as [p q]. cbn [ptr_ ref_] in *. subst p q.
  rewrite insert_id by done. by destruct s.
Qed.

(** X8. Copy assignment between two handles that already share a value
    changes nothing: the count is taken down and put back up. *)
Theorem assign_copy_between_aliases s this rhs b r n :
  this ≠ rhs → boxes s !! this = Some b → boxes s !! rhs = Some b →
  ref_ b = Some r → heap s !! r = Some (IntCell n) → 1 < n → n ≤ INT_MAX →
  assign_copy this rhs s = Ok tt s.
Proof.
  intros Hne Hb Hrb Hr Hc Hn Hmax.
  unfold assign_copy.
  destruct (decide (this = rhs)) as [|_]; [done|].
  unfold_members. exec_steps.
  destruct (Z.ltb_spec 1 n) as [_|?]; [|lia]. exec_steps.
  destruct (Z.ltb_spec INT_MIN n) as [_|?]; [|unfold INT_MIN in *; lia]. exec_steps.
  destruct (Z.ltb_spec (n - 1) INT_MAX) as [_|?]; [|lia]. exec_steps.
  state_norm. replace (n - 1 + 1) with n by lia.
  rewrite (insert_id (heap s)) by done.
  rewrite (insert_id (boxes s))
    by (rewrite Hb; destruct b as [p q]; cbn [ptr_ ref_] in *; by subst).
  by destruct s.
Qed.
End CopyAssign.

(** ** Failure injection *)

Section Allocator.
Context {T : Type}.
Implicit Types (s : state T).

(** X9. Without recording, with [throwBadAlloc = k + 1] the first [k]
    allocations succeed and the next one throws; the counter then stays at
    1, so every later allocation throws as well until the harness resets
    it. *)
Theorem nth_allocation_throws k s (v : T) :
  recordaddrs s = false → throwBadAlloc s = Z.of_nat (S k) →
  ∃ s', allocate k v s = Ok tt s' ∧
        size (heap s') = (size (heap s) + k)%nat ∧
        boxes s' = boxes s ∧
        recordaddrs s' = false ∧ addrs s' = addrs s ∧
        throwBadAlloc s' = 1 ∧
        new_T v s' = Throw bad_alloc s' ∧
        new_int 1 s' = Throw bad_alloc s'.
Proof.
  revert s. induction k as [|k IH]; intros s Hrec Hn.
  - exists s. cbn [allocate]. split; [done|]. split; [lia|]. split; [done|].
    split; [done|]. split; [done|]. split; [done|].
    unfold new_T, new_int, bind. rewrite !operator_new_fails by done. done.
  - cbn [allocate]. unfold bind at 1. rewrite new_T_off by (done || lia).
    destruct (IH (State (<[fresh (blocks s) := TCell v]> (heap s)) (boxes s)
                    (countdown (throwBadAlloc s)) false (addrs s)))
      as (s' & Hrun & Hsize & Hboxes & Hrec' & Had & Hone & Hfail); [done| |].
    { cbn [throwBadAlloc]. unfold countdown.
      destruct (Z.ltb_spec 1 (throwBadAlloc s)); lia. }
    exists s'. split; [exact Hrun|]. split; [|done].
    rewrite Hsize. cbn [heap].
    rewrite map_size_insert_None by apply fresh_blocks. lia.
Qed.

(** X10. With [throwBadAlloc <= 0] no allocation throws and the counter
    is left alone, with or without recording. *)
Theorem allocation_disarmed k s (v : T) :
  throwBadAlloc s ≤ 0 →
  ∃ s', allocate k v s = Ok tt s' ∧
        size (heap s') = (size (heap s) + k)%nat ∧
        boxes s' = boxes s ∧
        throwBadAlloc s' = throwBadAlloc s ∧
        recordaddrs s' = recordaddrs s.
Proof.
  revert s. induction k as [|k IH]; intros s Hn.
  - exists s. cbn [allocate]. split; [done|]. split; [lia|]. done.
  - cbn [allocate]. unfold bind at 1.
    destruct (new_T_disarmed s v Hn) as (p & ad & Hp & ->).
    destruct (IH (State (<[p := TCell v]> (heap s)) (boxes s) (throwBadAlloc s)
                    (recordaddrs s) ad))
      as (s' & Hrun & Hsize & Hboxes & Htba & Hrec); [done|].
    exists s'. split; [exact Hrun|].
    cbn [heap boxes throwBadAlloc recordaddrs] in *.
    split; [|done].
    rewrite Hsize. rewrite map_size_insert_None by done. lia.
Qed.

(** With recording on and every recorded address that of a live block,
    the block returned is not in [addrs] yet: an allocation that succeeds
    counts down twice and records the block. *)
Lemma new_recording (c : cell T) s :
  recordaddrs s = true → dom (addrs s) ⊆ dom (heap s) →
  throwBadAlloc s ≠ 1 → throwBadAlloc s ≠ 2 →
  ∃ p nd, heap s !! p = None ∧ addrs s !! p = None ∧
    bind operator_new (λ a, bind (init_cell a c) (λ _, ret a)) s =
      Ok p (State (<[p := c]> (heap s)) (boxes s)
              (countdown (countdown (throwBadAlloc s))) true
              (<[p := nd]> (addrs s))).
Proof.
  intros Hrec Hlive H1 H2.
  pose proof (fresh_blocks s) as Hp.
  assert (Hst : addrs s !! fresh (blocks s) = None).
  { apply not_elem_of_dom. intros Hin. apply Hlive in Hin.
    by apply not_elem_of_dom in Hp. }
  eexists (fresh (blocks s)), _. split; [done|]. split; [done|].
  unfold bind. rewrite operator_new_unfold. unfold operator_new_closed.
  rewrite Hrec, Hst.
  destruct (Z.eqb_spec (throwBadAlloc s) 1) as [?|_]; [done|].
  destruct (Z.eqb_spec (countdown (throwBadAlloc s)) 1) as [E|_].
  { unfold countdown in E. destruct (Z.ltb_spec 1 (throwBadAlloc s)); lia. }
  unfold init_cell, ret. state_norm. reflexivity.
Qed.

(** With [throwBadAlloc = 2] it throws from the insertion into [addrs]:
    the block is left behind and recording is switched off. *)
Lemma new_recording_fails (c : cell T) s :
  recordaddrs s = true → dom (addrs s) ⊆ dom (heap s) →
  throwBadAlloc s = 2 →
  ∃ q, heap s !! q = None ∧
    bind operator_new (λ a, bind (init_cell a c) (λ _, ret a)) s =
      Throw bad_alloc (State (<[q := RawCell]> (heap s)) (boxes s) 1 false (addrs s)).
Proof.
  intros Hrec Hlive H2.
  pose proof (fresh_blocks s) as Hp.
  assert (Hst : addrs s !! fresh (blocks s) = None).
  { apply not_elem_of_dom. intros Hin. apply Hlive in Hin.
    by apply not_elem_of_dom in Hp. }
  exists (fresh (blocks s)). split; [done|].
  unfold bind. rewrite operator_new_unfold. unfold operator_new_closed.
  by rewrite Hrec, Hst, H2.
Qed.

Lemma new_T_recording s (v : T) :
  recordaddrs s = true → dom (addrs s) ⊆ dom (heap s) →
  throwBadAlloc s ≠ 1 → throwBadAlloc s ≠ 2 →
  ∃ p nd, heap s !! p = None ∧ addrs s !! p = None ∧
    new_T v s =
      Ok p (State (<[p := TCell v]> (heap s)) (boxes s)
              (countdown (countdown (throwBadAlloc s))) true
              (<[p := nd]> (addrs s))).
Proof. apply (new_recording (TCell v)). Qed.

Lemma new_T_recording_fails s (v : T) :
  recordaddrs s = true → dom (addrs s) ⊆ dom (heap s) →
  throwBadAlloc s = 2 →
  ∃ q, heap s !! q = None ∧
    new_T v s =
      Throw bad_alloc (State (<[q := RawCell]> (heap s)) (boxes s) 1 false (addrs s)).
Proof. apply (new_recording_fails (TCell v)). Qed.

(** X21. With recording on and every recorded address that of a live
    block, each allocation runs the countdown twice, once for the block
    and once for the tree node that records its address.  So with
    [throwBadAlloc] at [2k + 1] or [2k + 2] the first [k] allocations
    succeed and are recorded, and the next one throws: at once for
    [2k + 1]; for [2k + 2] from the insertion into [addrs], after it took
    its block, which stays in the free store with no object in it, and
    with recording left switched off. *)
Theorem recording_counts_twice k s (v : T) :
  recordaddrs s = true → dom (addrs s) ⊆ dom (heap s) →
  throwBadAlloc s = 2 * Z.of_nat k + 1 ∨ throwBadAlloc s = 2 * Z.of_nat k + 2 →
  ∃ s', allocate k v s = Ok tt s' ∧
        size (heap s') = (size (heap s) + k)%nat ∧
        size (addrs s') = (size (addrs s) + k)%nat ∧
        boxes s' = boxes s ∧ recordaddrs s' = true ∧
        throwBadAlloc s' = throwBadAlloc s - 2 * Z.of_nat k ∧
        (throwBadAlloc s = 2 * Z.of_nat k + 1 →
         new_T v s' = Throw bad_alloc s') ∧
        (throwBadAlloc s = 2 * Z.of_nat k + 2 →
         ∃ q, heap s' !! q = None ∧
              new_T v s' =
                Throw bad_alloc
                  (State (<[q := RawCell]> (heap s')) (boxes s') 1 false (addrs s'))).
Proof.
  revert s. induction k as [|k IH]; intros s Hrec Hlive Ht.
  - exists s. cbn [allocate]. split; [done|]. split; [lia|]. split; [lia|].
    split; [done|]. split; [done|]. split; [lia|]. split.
    + intros H1. unfold new_T, bind. by rewrite operator_new_fails by lia.
    + intros H2. apply new_T_recording_fails; [done|done|lia].
  - cbn [allocate]. unfold bind at 1.
    destruct (new_T_recording s v Hrec Hlive) as (p & nd & Hp & Hst & ->); [lia..|].
    assert (Hc : countdown (countdown (throwBadAlloc s)) = throwBadAlloc s - 2).
    { unfold countdown.
      destruct (Z.ltb_spec 1 (throwBadAlloc s)); [|lia].
      destruct (Z.ltb_spec 1 (throwBadAlloc s - 1)); lia. }
    rewrite Hc.
    destruct (IH (State (<[p := TCell v]> (heap s)) (boxes s) (throwBadAlloc s - 2)
                    true (<[p := nd]> (addrs s))))
      as (s' & Hrun & Hsize & Hsize' & Hboxes & Hrec' & Htb & Hone & Htwo).
    { done. }
    { cbn [heap addrs]. rewrite !dom_insert_L. by apply union_mono_l. }
    { cbn [throwBadAlloc]. lia. }
    cbn [heap boxes throwBadAlloc recordaddrs addrs] in *.
    exists s'. split; [exact Hrun|].
    split; [rewrite Hsize, map_size_insert_None by done; lia|].
    split; [rewrite Hsize', map_size_insert_None by done; lia|].
    split; [done|]. split; [done|]. split; [lia|]. split.
    + intros H1. apply Hone. lia.
    + intros H2. apply Htwo. lia.
Qed.

(** X23. An allocation that succeeds, followed by the deletion of what it
    allocated, gives back the state before it, but for the countdown:
    the block is freed and, when recording, its address is erased from
    [addrs] again (so [addrs.size()] is what it was). *)
Theorem new_then_delete_restores s (v : T) :
  (recordaddrs s = false → throwBadAlloc s ≠ 1 →
   bind (new_T v) (λ p, delete_T (Some p)) s =
     Ok tt (set_throwBadAlloc (countdown (throwBadAlloc s)) s)) ∧
  (recordaddrs s = true → dom (addrs s) ⊆ dom (heap s) →
   throwBadAlloc s ≠ 1 → throwBadAlloc s ≠ 2 →
   bind (new_T v) (λ p, delete_T (Some p)) s =
     Ok tt (set_throwBadAlloc (countdown (countdown (throwBadAlloc s))) s)).
Proof.
  split.
  - intros Hrec Ht. unfold bind. rewrite new_T_off by done.
    unfold delete_T. cbn [heap]. rewrite lookup_insert_eq, operator_delete_exec.
    unfold deleted, erase_if, set_throwBadAlloc.
    cbn [heap boxes throwBadAlloc recordaddrs addrs].
    rewrite delete_insert_id by apply fresh_blocks. by rewrite Hrec.
  - intros Hrec Hlive H1 H2. unfold bind.
    destruct (new_T_recording s v Hrec Hlive H1 H2) as (p & nd & Hp & Hst & ->).
    unfold delete_T. cbn [heap]. rewrite lookup_insert_eq, operator_delete_exec.
    unfold deleted, erase_if, set_throwBadAlloc.
    cbn [heap boxes throwBadAlloc recordaddrs addrs].
    rewrite !delete_insert_id by done. by rewrite Hrec.
Qed.

(** X24. [operator new] calls itself, through [addrs.insert], at most
    once: the nested call runs with [recordaddrs] false and so inserts
    nothing.  Allowing calls to nest deeper than two gives the same
    outcome in every state, and that outcome is a block or [bad_alloc],
    never an undefined one. *)
Theorem operator_new_two_levels d s :
  operator_new_at (S (S d)) s = operator_new s ∧
  ((∃ p s', operator_new s = Ok p s' ∧ heap s !! p = None ∧
            heap s' !! p = Some RawCell) ∨
   (∃ s', operator_new s = Throw bad_alloc s')).
Proof.
  split; [apply operator_new_depth|].
  destruct (operator_new_cases s)
    as [[_ E]|[(p & _ & _ & E)|(p & tb & ad & Hp & _ & _ & E)]].
  - right. eauto.
  - right. eauto.
  - left. eexists _, _. split; [exact E|]. split; [done|].
    cbn [heap]. apply lookup_insert_eq.
Qed.

(** X22. Which values of [throwBadAlloc] make an allocation of [clone]
    throw.  Without recording: 1 (the value) and 2 (the count).  With
    recording on and every recorded address that of a live block: 1 to 4,
    since the value and the count each run the countdown twice. *)
Theorem clone_allocations_fail_when (T_init : T) s :
  (recordaddrs s = false →
   (raises (clone_allocations T_init s) bad_alloc ↔
    throwBadAlloc s = 1 ∨ throwBadAlloc s = 2)) ∧
  (recordaddrs s = true → dom (addrs s) ⊆ dom (heap s) →
   (raises (clone_allocations T_init s) bad_alloc ↔
    1 ≤ throwBadAlloc s ≤ 4)).
Proof.
  split; [apply clone_allocations_off|].
  intros Hrec Hlive. rewrite clone_allocations_raise.
  destruct (decide (throwBadAlloc s = 1)) as [H1|H1].
  { split; [lia|]. intros _. left. exists s.
    unfold new_T, bind. by rewrite operator_new_fails. }
  destruct (decide (throwBadAlloc s = 2)) as [H2|H2].
  { split; [lia|]. intros _. left.
    destruct (new_T_recording_fails s T_init Hrec Hlive H2) as (q & _ & E).
    eauto. }
  destruct (new_T_recording s T_init Hrec Hlive H1 H2) as (p & nd & Hp & Hst & E).
  set (s1 := State (<[p := TCell T_init]> (heap s)) (boxes s)
               (countdown (countdown (throwBadAlloc s))) true
               (<[p := nd]> (addrs s))) in *.
  assert (Hlive1 : dom (addrs s1) ⊆ dom (heap s1)).
  { cbn [addrs heap s1]. rewrite !dom_insert_L. by apply union_mono_l. }
  assert (Hc : throwBadAlloc s1 =
               if decide (throwBadAlloc s ≤ 0) then throwBadAlloc s
               else throwBadAlloc s - 2).
  { cbn [throwBadAlloc s1]. unfold countdown. case_decide.
    - destruct (Z.ltb_spec 1 (throwBadAlloc s)); [lia|].
      destruct (Z.ltb_spec 1 (throwBadAlloc s)); lia.
    - destruct (Z.ltb_spec 1 (throwBadAlloc s)); [|lia].
      destruct (Z.ltb_spec 1 (throwBadAlloc s - 1)); lia. }
  split.
  - intros [[s0 H]|(p' & s0 & s2 & H & Hint)]; [congruence|].
    rewrite E in H. injection H as <- <-.
    destruct (decide (throwBadAlloc s1 = 1)) as [?|N1]; [case_decide; lia|].
    destruct (decide (throwBadAlloc s1 = 2)) as [?|N2]; [case_decide; lia|].
    destruct (new_recording (IntCell 1) s1 eq_refl Hlive1 N1 N2)
      as (q & nq & _ & _ & E2).
    unfold new_int in Hint. congruence.
  - intros Hrange. right.
    destruct (decide (throwBadAlloc s = 3)) as [H3|H3].
    + exists p, s1, s1. split; [exact E|].
      unfold new_int, bind. rewrite operator_new_fails; [done|].
      rewrite Hc. case_decide; lia.
    + assert (H4 : throwBadAlloc s1 = 2) by (rewrite Hc; case_decide; lia).
      destruct (new_recording_fails (IntCell 1) s1 eq_refl Hlive1 H4)
        as (q & _ & E2).
      exists p, s1. eexists. split; [exact E|]. exact E2.
Qed.

End Allocator.

(** ** Memory safety *)

Section Safety.
Context {T : Type}.
Variable T_init : T.
Implicit Types (s : state T) (b : smart_ptr) (this rhs : handle) (a r : loc).

Lemma aliases_two (bs : gmap handle smart_ptr) h1 h2 b1 b2 r :
  h1 ≠ h2 → bs !! h1 = Some b1 → bs !! h2 = Some b2 →
  ref_ b1 = Some r → ref_ b2 = Some r → (2 ≤ aliases bs r)%nat.
Proof.
  intros Hne H1 H2 Hr1 Hr2.
  rewrite (aliases_lookup _ _ _ r H1).
  rewrite (aliases_lookup (delete h1 bs) h2 b2 r) by (by rewrite lookup_delete_ne).
  unfold refers. rewrite !decide_True by done. lia.
Qed.

(** A value with a second handle on it has a count of at least 2. *)
Lemma shared_value_count s h1 h2 b1 b2 a r :
  safe s → h1 ≠ h2 →
  boxes s !! h1 = Some b1 → boxes s !! h2 = Some b2 →
  ptr_ b1 = Some a → ptr_ b2 = Some a → ref_ b1 = Some r →
  ∃ n, heap s !! r = Some (IntCell n) ∧ 2 ≤ n.
Proof.
  intros ([_ Hcnt] & _ & Hpair) Hne H1 H2 Hp1 Hp2 Hr1.
  assert (Hr2 : ref_ b2 = Some r) by (rewrite <-Hr1; symmetry; by eapply Hpair).
  pose proof (aliases_two _ _ _ _ _ _ Hne H1 H2 Hr1 Hr2) as Hal.
  destruct (Hcnt r) as [?|(n & Hn & Hle)]; [lia|].
  cbn [covers] in Hle. apply cnt_Some in Hn. exists n. split; [done|lia].
Qed.

Lemma pairs_agree_insert s this b' (hp : gmap loc (cell T)) (tb : Z) rc ad :
  pairs_agree s →
  (∀ h b a, h ≠ this → boxes s !! h = Some b →
            ptr_ b' = Some a → ptr_ b = Some a → ref_ b' = ref_ b) →
  pairs_agree (State hp (<[this := b']> (boxes s)) tb rc ad).
Proof.
  intros Hpair Hnew h1 h2 b1 b2 a. cbn [boxes].
  rewrite !lookup_insert_Some.
  intros [[<- <-]|[Hn1 H1]] [[<- <-]|[Hn2 H2]] Hp1 Hp2.
  - done.
  - by eapply Hnew.
  - symmetry. by eapply Hnew.
  - by eapply Hpair.
Qed.

Lemma values_live_insert s this b' (hp : gmap loc (cell T)) (tb : Z) rc ad :
  (∀ a, ptr_ b' = Some a → ∃ v, hp !! a = Some (TCell v)) →
  (∀ h b a, h ≠ this → boxes s !! h = Some b → ptr_ b = Some a →
            ∃ v, hp !! a = Some (TCell v)) →
  values_live (State hp (<[this := b']> (boxes s)) tb rc ad).
Proof.
  intros Hnew Hold h b a. cbn [boxes heap].
  rewrite lookup_insert_Some. intros [[<- <-]|[Hn Hl]] Hp.
  - by apply Hnew.
  - by eapply Hold.
Qed.

Ltac bool_facts :=
  repeat match goal with
    | H : (_ =? _) = true |- _ => apply Z.eqb_eq in H
    | H : (_ =? _) = false |- _ => apply Z.eqb_neq in H
    | H : (_ <? _) = true |- _ => apply Z.ltb_lt in H
    | H : (_ <? _) = false |- _ => apply Z.ltb_ge in H
    | H : delete _ _ !! _ = Some _ |- _ =>
        apply lookup_delete_Some in H; destruct H as [? H]
    end.

Ltac sole_owner_contra Hs :=
  let E := fresh in
  intros E; subst;
  match goal with
  | Hthis : boxes ?s !! ?this = Some ?b,
    Hoth : boxes ?s !! ?h = Some ?bh |- _ =>
      edestruct (shared_value_count s this h b bh) as (? & ? & ?);
      [exact Hs|congruence|exact Hthis|exact Hoth
      |eassumption|eassumption|eassumption|]
  end; simplify_eq; lia.

Ltac keep_value Hs :=
  repeat first
    [ rewrite lookup_insert_ne by congruence
    | rewrite lookup_delete_ne by congruence
    | rewrite lookup_delete_ne by sole_owner_contra Hs ];
  eassumption.

Ltac lookup_facts :=
  repeat match goal with
    | H : <[_ := _]> _ !! _ = Some _ |- _ =>
        apply lookup_insert_Some in H; destruct H as [[-> ?]|[? H]]
    | H : delete _ _ !! _ = Some _ |- _ =>
        apply lookup_delete_Some in H; destruct H as [? H]
    end.

Ltac new_value Hlive Hs :=
  let x := fresh "x" in
  let Hp := fresh "Hp" in
  intros x Hp; cbn [ptr_] in Hp;
  match goal with
  | Hl : boxes _ !! _ = Some ?b |- _ =>
      match type of Hp with
      | ptr_ b = Some _ =>
          let w := fresh "w" in
          let Hw := fresh "Hw" in
          destruct (Hlive _ _ _ Hl Hp) as [w Hw]; exists w; keep_value Hs
      end
  end.

Ltac old_values Hlive Hs :=
  let h := fresh "h" in
  let bh := fresh "bh" in
  let x := fresh "x" in
  let Hne := fresh "Hne" in
  let Hl := fresh "Hl" in
  let Hp := fresh "Hp" in
  let w := fresh "w" in
  let Hw := fresh "Hw" in
  intros h bh x Hne Hl Hp;
  destruct (Hlive _ _ _ Hl Hp) as [w Hw]; exists w; keep_value Hs.

Ltac new_pair Hpair :=
  let h := fresh "h" in
  let bh := fresh "bh" in
  let x := fresh "x" in
  let Hne := fresh "Hne" in
  let Hl := fresh "Hl" in
  let Hp1 := fresh "Hp" in
  let Hp2 := fresh "Hp" in
  intros h bh x Hne Hl Hp1 Hp2; cbn [ptr_ ref_] in *;
  match goal with
  | Hr : boxes _ !! _ = Some ?b |- _ =>
      match type of Hp1 with
      | ptr_ b = Some _ =>
          rewrite <-(Hpair _ _ _ _ _ Hr Hl Hp1 Hp2); congruence
      end
  end.


Lemma dtor_safe s this s' :
  safe s → final_state (dtor this s) = Some s' → safe s'.
Proof.
  intros Hs Hfin.
  split; [by destruct (dtor_consistent false s this s') as [? _]; [apply Hs|done|]|].
  pose proof Hs as (_ & Hlive & Hpair). revert Hfin.
  exec_cases; [| | |done];
    (split; [apply values_live_insert; [done|]
            |apply pairs_agree_insert; [done|done]]);
    bool_facts; intros h bh x Hne Hl Hp;
    destruct (Hlive _ _ _ Hl Hp) as [w Hw]; exists w; keep_value Hs.
Qed.

Lemma destroy_safe s this s' :
  safe s → final_state (destroy this s) = Some s' → safe s'.
Proof.
  intros Hs Hfin.
  split; [eapply (destroy_consistent false); [apply Hs|done]|].
  revert Hfin. unfold destroy, bind.
  destruct (dtor this s) as [[] s1|x s1|] eqn:Hd; cbn [final_state]; try done.
  - destruct (dtor_safe s this s1 Hs) as (_ & Hlive & Hpair); [by rewrite Hd|].
    unfold end_lifetime. intros [= <-]. split.
    + intros h b a. cbn [boxes heap set_boxes].
      rewrite lookup_delete_Some. intros [_ Hl]. by eapply Hlive.
    + intros h1 h2 b1 b2 a. cbn [boxes set_boxes].
      rewrite !lookup_delete_Some. intros [_ H1] [_ H2]. by eapply Hpair.
  - intros [= <-]. revert Hd. unfold_members. msimpl.
    repeat (exec_step; msimpl; try (intros [=]; fail)).
Qed.

Lemma frame_safe s s' :
  boxes s' = boxes s →
  (∀ a v, heap s !! a = Some (TCell v) → heap s' !! a = Some (TCell v)) →
  consistent false s' → safe s → safe s'.
Proof.
  intros Hb Hh Hc (_ & Hlive & Hpair). split; [done|]. split.
  - intros h b a. rewrite Hb. intros Hl Hp.
    destruct (Hlive _ _ _ Hl Hp) as [v Hv]. exists v. by apply Hh.
  - intros h1 h2 b1 b2 a. rewrite Hb. apply Hpair.
Qed.

Lemma new_T_safe s v s' :
  safe s → final_state (discard (new_T v) s) = Some s' → safe s'.
Proof.
  intros Hs Hfin.
  assert (Hc : consistent false s') by (eapply new_T_consistent; [apply Hs|done]).
  revert Hfin Hc. exec_cases; [done|..]; intros Hc;
    (eapply frame_safe; [| |exact Hc|exact Hs]; cbn [boxes heap]; [done|]);
    intros a w Hw; by rewrite lookup_insert_ne by congruence.
Qed.

Lemma ctor_default_safe s this s' :
  safe s → boxes s !! this = None →
  final_state (ctor_default this s) = Some s' → safe s'.
Proof.
  intros Hs Hfresh Hfin.
  split; [eapply ctor_default_consistent; [apply Hs|done|done]|].
  pose proof Hs as (_ & Hlive & Hpair). revert Hfin.
  exec_cases.
  split; [apply values_live_insert; [done|]|apply pairs_agree_insert; [done|done]].
  intros h bh x Hne Hl Hp. by eapply Hlive.
Qed.

Lemma ctor_lref_safe s this a s' :
  safe s → boxes s !! this = None → owned_raw s a →
  final_state (ctor_lref this (Some a) s) = Some s' → safe s'.
Proof.
  intros Hs Hfresh [[v Ha] Hown] Hfin.
  assert (Hc : consistent false s')
    by (eapply ctor_lref_consistent; [apply Hs|done|done]).
  pose proof Hs as (_ & Hlive & Hpair). revert Hfin Hc.
  exec_cases; [done| |]; intros Hc.
  - eapply frame_safe; [| |exact Hc|exact Hs]; cbn [boxes heap]; [done|].
    intros y w Hw. by rewrite lookup_insert_ne by congruence.
  - split; [done|].
    split; [apply values_live_insert|apply pairs_agree_insert; [done|]].
    + intros y [= <-]; exists v; by rewrite lookup_insert_ne by congruence.
    + intros h bh y Hne Hl Hp; destruct (Hlive _ _ _ Hl Hp) as [w Hw];
        exists w; by rewrite lookup_insert_ne by congruence.
    + intros h bh y Hne Hl [= <-] Hp; by destruct (Hown _ _ Hl).
Qed.

Lemma ctor_rref_safe s this a s' :
  safe s → boxes s !! this = None → owned_raw s a →
  final_state (ctor_rref this (Some a) s) = Some s' → safe s'.
Proof.
  intros Hs Hfresh [[v Ha] Hown] Hfin.
  assert (Hc : consistent false s')
    by (eapply ctor_rref_consistent; [apply Hs|done|done]).
  pose proof Hs as (_ & Hlive & Hpair). revert Hfin Hc.
  exec_cases; intros Hc.
  - split; [done|]. split.
    + intros h b y Hl Hp. cbn [boxes heap] in *.
      destruct (Hlive _ _ _ Hl Hp) as [w Hw]. exists w.
      rewrite lookup_delete_ne; [done|]. intros <-. by destruct (Hown _ _ Hl).
    + intros h1 h2 b1 b2 y. cbn [boxes]. apply Hpair.
  - split; [done|]. split.
    + intros h b y Hl Hp. cbn [boxes heap] in *.
      destruct (Hlive _ _ _ Hl Hp) as [w Hw]. exists w.
      rewrite lookup_delete_ne by (intros <-; by destruct (Hown _ _ Hl)).
      by rewrite lookup_insert_ne by congruence.
    + intros h1 h2 b1 b2 y. cbn [boxes]. apply Hpair.
  - split; [done|].
    split; [apply values_live_insert|apply pairs_agree_insert; [done|]].
    + intros y [= <-]; exists v; by rewrite lookup_insert_ne by congruence.
    + intros h bh y Hne Hl Hp; destruct (Hlive _ _ _ Hl Hp) as [w Hw];
        exists w; by rewrite lookup_insert_ne by congruence.
    + intros h bh y Hne Hl [= <-] Hp; by destruct (Hown _ _ Hl).
Qed.


Lemma ctor_copy_safe s this rhs s' :
  safe s → boxes s !! this = None →
  final_state (ctor_copy this rhs s) = Some s' → safe s'.
Proof.
  intros Hs Hfresh Hfin.
  split; [eapply ctor_copy_consistent; [apply Hs|done|done]|].
  pose proof Hs as (_ & Hlive & Hpair). revert Hfin.
  exec_cases.
  split; [apply values_live_insert|apply pairs_agree_insert; [done|]].
  - intros x Hp. cbn [ptr_] in Hp.
    destruct (Hlive _ _ _ Heqo Hp) as [w Hw]. exists w. keep_value Hs.
  - intros h bh x Hne Hl Hp.
    destruct (Hlive _ _ _ Hl Hp) as [w Hw]. exists w. keep_value Hs.
  - intros h bh x Hne Hl Hp1 Hp2. cbn [ptr_ ref_] in *.
    rewrite <-Heqo0. by eapply Hpair.
Qed.

Lemma moved_safe s this rhs rb :
  safe s → this ≠ rhs → boxes s !! rhs = Some rb →
  consistent false (set_boxes (<[rhs := Box None None]> (<[this := rb]> (boxes s))) s) →
  safe (set_boxes (<[rhs := Box None None]> (<[this := rb]> (boxes s))) s).
Proof.
  intros (_ & Hlive & Hpair) Hne Hrb Hc. split; [done|]. split.
  - intros h b a. cbn [boxes heap set_boxes]. rewrite !lookup_insert_Some.
    intros [[_ <-]|[_ [[_ <-]|[_ Hl]]]] Hp; [done|by eapply Hlive..].
  - intros h1 h2 b1 b2 a. cbn [boxes set_boxes]. rewrite !lookup_insert_Some.
    intros [[_ <-]|[N1 [[_ <-]|[M1 H1]]]] [[_ <-]|[N2 [[_ <-]|[M2 H2]]]] Hp1 Hp2;
      try done; by eapply Hpair.
Qed.

Lemma ctor_move_safe s this rhs s' :
  safe s → boxes s !! this = None →
  final_state (ctor_move this rhs s) = Some s' → safe s'.
Proof.
  intros Hs Hfresh Hfin.
  assert (Hc : consistent false s')
    by (eapply ctor_move_consistent; [apply Hs|done|done]).
  revert Hfin Hc.
  destruct (boxes s !! rhs) as [rb|] eqn:Hrb;
    [|unfold_members; msimpl; by rewrite Hrb].
  assert (this ≠ rhs) by congruence.
  rewrite (ctor_move_exec _ _ _ _ Hrb) by done.
  intros [= <-] Hc. by apply moved_safe.
Qed.

Lemma assign_move_safe s this rhs s' :
  safe s → final_state (assign_move this rhs s) = Some s' → safe s'.
Proof.
  intros Hs Hfin.
  assert (Hc : consistent false s')
    by (eapply assign_move_consistent; [apply Hs|done|done]).
  revert Hfin Hc.
  destruct (decide (this = rhs)) as [->|Hne].
  { rewrite assign_move_self. by intros [= <-]. }
  destruct (boxes s !! rhs) as [rb|] eqn:Hrb;
    [|unfold_members; rewrite decide_False by done; msimpl; by rewrite Hrb].
  destruct (boxes s !! this) as [b|] eqn:Hb;
    [|unfold_members; rewrite decide_False by done; msimpl; by rewrite Hrb, Hb].
  rewrite (assign_move_exec _ _ _ _ _ Hrb Hb) by done.
  intros [= <-] Hc. by apply moved_safe.
Qed.

Lemma assign_copy_safe s this rhs s' :
  safe s → final_state (assign_copy this rhs s) = Some s' → safe s'.
Proof.
  intros Hs Hfin.
  split; [eapply assign_copy_consistent; [apply Hs|done]|].
  pose proof Hs as (_ & Hlive & Hpair). revert Hfin.
  unfold assign_copy. destruct (decide (this = rhs)) as [->|Hne].
  { by intros [= <-]. }
  exec_cases;
    (split; [apply values_live_insert|apply pairs_agree_insert; [done|]]);
    bool_facts; lookup_facts;
    first [new_value Hlive Hs | old_values Hlive Hs | new_pair Hpair].
Qed.


Lemma clone_safe s this s' :
  safe s → final_state (discard (clone T_init this) s) = Some s' → safe s'.
Proof.
  intros Hs Hfin.
  assert (Hc : consistent false s')
    by (eapply clone_consistent; [apply Hs|done]).
  pose proof Hs as (_ & Hlive & Hpair).
  revert Hfin Hc.
  exec_cases; try done; intros Hc;
    try (eapply frame_safe; [| |exact Hc|exact Hs]; cbn [boxes heap]; [done|];
         intros y w Hw;
         rewrite ?lookup_delete_ne, ?lookup_insert_ne by congruence; exact Hw);
    (split; [done|]);
    repeat match goal with
      | H : <[_ := _]> _ !! _ = Some (TCell _) |- _ => clear H
      end;
    repeat match goal with
      | H : context [<[?k := _]> _ !! ?j] |- _ =>
          rewrite (lookup_insert_ne _ k j) in H by congruence
      end;
    (split; [apply values_live_insert|apply pairs_agree_insert; [done|]]);
    first
      [ intros y [= <-]; eexists;
        rewrite lookup_insert_ne by congruence; apply lookup_insert_eq
      | old_values Hlive Hs
      | intros h bh y Hne Hl [= <-] Hp;
        destruct (Hlive _ _ _ Hl Hp) as [w Hw]; congruence ].
Qed.


Lemma observer_safe {A} (m : M A) s s' :
  (∀ s0, final_state (m s0) = Some s0 ∨ m s0 = UB) →
  safe s → final_state (discard m s) = Some s' → safe s'.
Proof.
  intros Hm Hs. unfold discard, bind, ret.
  destruct (Hm s) as [H|H]; destruct (m s); cbn [final_state] in *; congruence.
Qed.

Lemma exec_op_safe o s s' :
  safe s → hands_over_owned o s → exec_op T_init o s = Some s' → safe s'.
Proof.
  intros Hs Hown. unfold exec_op.
  destruct (storage_ok o s) eqn:Hok; [|done].
  destruct o; cbn [run_op storage_ok hands_over_owned] in *;
    try apply bool_decide_eq_true in Hok.
  - by apply new_T_safe.
  - intros [= <-]. destruct Hs as (Hc & Hlive & Hpair).
    split; [by eapply frame_consistent|]. by split.
  - intros [= <-]. destruct Hs as (Hc & Hlive & Hpair).
    split; [by eapply frame_consistent|]. by split.
  - by apply ctor_default_safe.
  - by apply ctor_lref_safe.
  - by apply ctor_rref_safe.
  - by apply ctor_copy_safe.
  - by apply ctor_move_safe.
  - by apply assign_copy_safe.
  - by apply assign_move_safe.
  - by apply clone_safe.
  - apply observer_safe; [apply ref_count_pure|done].
  - apply observer_safe; [apply operator_star_pure|done].
  - apply observer_safe; [apply operator_arrow_pure|done].
  - by apply destroy_safe.
Qed.

Lemma initial_safe : safe (initial (T:=T)).
Proof.
  split; [apply initial_consistent|]. split.
  - intros h b a. unfold initial. cbn [boxes]. by rewrite lookup_empty.
  - intros h1 h2 b1 b2 a. unfold initial. cbn [boxes]. by rewrite lookup_empty.
Qed.

Lemma reachable_owned_safe s : reachable_owned T_init s → safe s.
Proof.
  induction 1 as [|s o s' _ IH Hown Hstep].
  - apply initial_safe.
  - by eapply exec_op_safe.
Qed.

(** X11. In every state reachable by the public operations on owned raw
    values, each live box is Empty or Occupied, an Occupied box
    dereferences to a live value (nothing dangles), and boxes that point to
    the same value hold the same count. *)
Theorem no_dangling_value s this b :
  reachable_owned T_init s → boxes s !! this = Some b →
  (Empty b ∨ Occupied b) ∧
  (Occupied b →
   ∃ a v, operator_star this s = Ok a s ∧ load_T (Some a) s = Ok v s) ∧
  (∀ h bh a, boxes s !! h = Some bh → ptr_ b = Some a → ptr_ bh = Some a →
             ref_ bh = ref_ b).
Proof.
  intros Hreach Hb.
  destruct (reachable_owned_safe _ Hreach) as ([Htwo _] & Hlive & Hpair).
  split; [by eapply Htwo|]. split.
  - intros [[a Hp] _]. destruct (Hlive _ _ _ Hb Hp) as [v Hv].
    exists a, v. rewrite (operator_star_live _ _ _ Hb), Hp.
    split; [done|]. unfold load_T. by rewrite Hv.
  - intros h bh a Hh Hp Hph. by eapply Hpair.
Qed.

End Safety.

(** ** No undefined behaviour in reachable states *)

Section Progress.
Context {T : Type}.
Variable T_init : T.
Implicit Types (s : state T) (b : smart_ptr) (this rhs : handle) (a r : loc).

(** What a safe state knows about an Occupied box. *)
Lemma safe_Occupied s this b r :
  safe s → boxes s !! this = Some b → ref_ b = Some r →
  ∃ a v n, ptr_ b = Some a ∧ heap s !! a = Some (TCell v) ∧
           heap s !! r = Some (IntCell n) ∧ 1 ≤ n ∧
           Z.of_nat (aliases (boxes s) r) ≤ n.
Proof.
  intros ([Htwo Hcnt] & Hlive & _) Hb Hr.
  destruct (two_state_Occupied _ _ _ _ Htwo Hb Hr) as [[a Hp] _].
  destruct (Hlive _ _ _ Hb Hp) as [v Hv].
  pose proof (aliases_referenced _ _ _ _ Hb Hr) as Hal.
  destruct (Hcnt r) as [?|(n & Hn & Hle)]; [lia|].
  cbn [covers] in Hle. apply cnt_Some in Hn.
  exists a, v, n. repeat (split; [done|]). split; lia.
Qed.

Lemma dtor_succeeds s this b :
  safe s → boxes s !! this = Some b →
  ∃ s1, dtor this s = Ok tt s1 ∧
        boxes s1 = <[this := Box None None]> (boxes s) ∧
        (∀ r n, heap s !! r = Some (IntCell n) → ref_ b ≠ Some r →
                heap s1 !! r = Some (IntCell n)) ∧
        (∀ r n, heap s !! r = Some (IntCell n) → ref_ b = Some r → 1 < n →
                heap s1 !! r = Some (IntCell (n - 1))).
Proof.
  intros Hs Hb. destruct (ref_ b) as [r|] eqn:Hr.
  - destruct (safe_Occupied _ _ _ _ Hs Hb Hr) as (a & v & n & Hp & Hv & Hn & Hn1 & _).
    destruct (decide (n = 1)) as [->|Hne].
    + eexists. split.
      { eapply (dtor_sole_owner_exec _ _ _ (Some a)); eauto. }
      cbn [boxes heap]. split; [done|]. split.
      * intros r' n' Hr' Hd.
        rewrite !lookup_delete_ne by congruence. done.
      * intros r' n' Hr' [= <-] ?. rewrite Hn in Hr'. injection Hr' as <-. lia.
    + eexists. split.
      { eapply dtor_shared_exec; eauto. unfold INT_MIN. lia. }
      cbn [boxes heap]. split; [done|]. split.
      * intros r' n' Hr' Hd. rewrite lookup_insert_ne by congruence. done.
      * intros r' n' Hr' [= <-] ?. rewrite Hn in Hr'. injection Hr' as <-.
        apply lookup_insert_eq.
  - exists s. split; [by eapply dtor_Empty_exec|].
    destruct Hs as ([Htwo _] & _).
    pose proof (two_state_Empty _ _ _ Htwo Hb Hr) as [Hp _].
    split; [|split; [done|done]].
    rewrite insert_id; [done|]. rewrite Hb. f_equal.
    destruct b as [p q]. cbn [ptr_ ref_] in *. by subst.
Qed.

(** X12. In every such state a live box can be destroyed: the destructor
    returns normally and the box is gone. *)
Theorem destroy_always_succeeds s this b :
  reachable_owned T_init s → boxes s !! this = Some b →
  ∃ s', destroy this s = Ok tt s' ∧ boxes s' = delete this (boxes s).
Proof.
  intros Hreach Hb.
  destruct (dtor_succeeds s this b) as (s1 & Hd & Hbs & _);
    [by apply (reachable_owned_safe T_init)|done|].
  exists (set_boxes (delete this (boxes s1)) s1).
  split; [unfold destroy, bind; by rewrite Hd|].
  cbn [boxes set_boxes]. rewrite Hbs. apply delete_insert_eq.
Qed.

(** X13. In every such state [clone] on a live box returns a result or
    throws [bad_alloc]; it has no undefined behaviour. *)
Theorem clone_completes s this b :
  reachable_owned T_init s → boxes s !! this = Some b →
  (∃ res s', clone T_init this s = Ok res s') ∨
  (∃ s', clone T_init this s = Throw bad_alloc s').
Proof.
  intros Hreach Hb.
  pose proof (reachable_owned_safe T_init _ Hreach) as Hs.
  destruct (ref_ b) as [r|] eqn:Hr.
  - destruct (safe_Occupied _ _ _ _ Hs Hb Hr) as (a & v & n & Hp & Hv & Hn & Hn1 & _).
    pose proof (ref_count_shared _ _ _ _ _ Hb Hr Hn) as Hrc.
    destruct (decide (n = 1)) as [->|Hne].
    { left. eexists _, _. by eapply clone_exclusive. }
    destruct (new_T T_init s) as [p s1|e s1|] eqn:E1.
    + destruct (new_int 1 s1) as [q s2|e s2|] eqn:E2.
      * left. eexists _, _. eapply (clone_exec T_init); eauto.
        { unfold INT_MIN. lia. }
        apply clone_allocations_Ok. eauto.
      * right. destruct (new_int_throws _ _ _ _ E2) as [-> _].
        eexists. by eapply (clone_second_alloc_fails T_init).
      * exfalso.
        destruct (new_int_outcomes 1 s1) as [E|[(? & _ & E)|(? & ? & ? & _ & E)]];
          congruence.
    + right. destruct (new_T_throws _ _ _ _ E1) as [-> _].
      eexists. by eapply (clone_first_alloc_fails T_init).
    + exfalso.
      destruct (new_T_outcomes T_init s) as [E|[(? & _ & E)|(? & ? & ? & _ & E)]];
        congruence.
  - destruct Hs as ([Htwo _] & _).
    pose proof (two_state_Empty _ _ _ Htwo Hb Hr) as [Hp _].
    left. eexists _, _. by eapply clone_Empty.
Qed.

Lemma safe_ref_count s this b :
  safe s → boxes s !! this = Some b → ∃ n, ref_count this s = Ok n s.
Proof.
  intros Hs Hb. destruct (ref_ b) as [r|] eqn:Hr.
  - destruct (safe_Occupied _ _ _ _ Hs Hb Hr) as (a & v & n & _ & _ & Hn & _).
    exists n. by eapply ref_count_shared.
  - exists 0. by eapply ref_count_Empty.
Qed.

(** X14. In every such state copy assignment between live boxes returns
    normally unless the count of the right-hand side is at [INT_MAX];
    afterwards both boxes hold the pair of the right-hand side and report
    the same count. *)
Theorem assign_copy_completes s this rhs b rb :
  reachable_owned T_init s →
  boxes s !! this = Some b → boxes s !! rhs = Some rb →
  (∀ m, ref_count rhs s = Ok m s → m < INT_MAX) →
  ∃ s' m, assign_copy this rhs s = Ok tt s' ∧
          boxes s' !! this = Some rb ∧ boxes s' !! rhs = Some rb ∧
          ref_count this s' = Ok m s' ∧ ref_count rhs s' = Ok m s'.
Proof.
  intros Hreach Hb Hrb Hmax.
  pose proof (reachable_owned_safe T_init _ Hreach) as Hs.
  destruct (decide (this = rhs)) as [->|Hne].
  { destruct (safe_ref_count _ _ _ Hs Hrb) as [m Hm].
    exists s, m. unfold assign_copy. rewrite decide_True by done.
    rewrite Hb in Hrb. injection Hrb as ->. done. }
  destruct (dtor_succeeds s this b Hs Hb) as (s1 & Hd & Hbs & Hkeep & Hdec).
  assert (Hthis1 : boxes s1 !! this = Some (Box None None))
    by (rewrite Hbs; apply lookup_insert_eq).
  assert (Hrhs1 : boxes s1 !! rhs = Some rb)
    by (rewrite Hbs; by rewrite lookup_insert_ne).
  pose proof Hs as ([Htwo _] & _).
  destruct (ref_ rb) as [r1|] eqn:Hr1.
  - destruct (safe_Occupied _ _ _ _ Hs Hrb Hr1)
      as (a & v & m & Hp & Hv & Hm & Hm1 & Hal).
    pose proof (Hmax m (ref_count_shared _ _ _ _ _ Hrb Hr1 Hm)) as Hlt.
    assert (Hcell : ∃ m1, heap s1 !! r1 = Some (IntCell m1) ∧ m1 < INT_MAX).
    { destruct (decide (ref_ b = Some r1)) as [Halias|Hother].
      - pose proof (aliases_two _ _ _ _ _ _ Hne Hb Hrb Halias Hr1).
        exists (m - 1). split; [apply Hdec; [done|done|lia]|lia].
      - exists m. split; [by apply Hkeep|done]. }
    destruct Hcell as (m1 & Hm1cell & Hm1lt).
    eexists _, (m1 + 1).
    split.
    { rewrite (assign_copy_unfold_Occupied s this rhs rb) by (done || by eexists).
      unfold bind. rewrite Hd.
      by eapply ctor_copy_exec. }
    cbn [boxes heap].
    assert (Ht : <[this := rb]> (boxes s1) !! this = Some rb)
      by apply lookup_insert_eq.
    assert (Hr : <[this := rb]> (boxes s1) !! rhs = Some rb)
      by (by rewrite lookup_insert_ne).
    split; [done|]. split; [done|].
    split; (eapply ref_count_shared; [eassumption|done|apply lookup_insert_eq]).
  - pose proof (two_state_Empty _ _ _ Htwo Hrb Hr1) as Hempty.
    exists s1, 0.
    split.
    { rewrite (assign_copy_unfold_Empty s this rhs b rb) by (done || by eapply Htwo).
      done. }
    assert (rb = Box None None) as ->.
    { destruct Hempty. destruct rb as [p q]. cbn [ptr_ ref_] in *. by subst. }
    split; [done|]. split; [done|].
    split; by eapply ref_count_Empty.
Qed.

End Progress.

(** ** No leaked count *)

Ltac orphan_cases :=
  repeat first
    [ rewrite cnt_delete | rewrite cnt_insert_int | rewrite cnt_insert_T
    | rewrite cnt_insert_Raw
    | match goal with
      | H : context [cnt (delete _ _) _] |- _ => rewrite cnt_delete in H
      | H : context [cnt (<[_ := IntCell _]> _) _] |- _ => rewrite cnt_insert_int in H
      | H : context [cnt (<[_ := TCell _]> _) _] |- _ => rewrite cnt_insert_T in H
      | H : context [cnt (<[_ := RawCell]> _) _] |- _ => rewrite cnt_insert_Raw in H
      end ];
  unfold refers in *; cbn [ref_] in *;
  repeat (case_decide; simplify_eq; try congruence);
  try congruence;
  unfold covers in *;
  try match goal with
    | Ho : ∀ n, cnt ?h ?r = Some n → _, Hm : cnt ?h ?r = Some _ |- _ =>
        specialize (Ho _ Hm)
    end;
  try lia.

Section Tight.
Context {T : Type}.
Variable T_init : T.
Implicit Types (s : state T) (b : smart_ptr) (this rhs : handle) (a r : loc).

Lemma dtor_tight s this s' :
  tight s → final_state (dtor this s) = Some s' → tight s'.
Proof.
  intros [Hc Horph] Hfin.
  split; [by destruct (dtor_consistent true s this s') as [? _]|].
  destruct Hc as [_ Hcnt]. revert Hfin.
  exec_cases; [| | |done];
    intros r m Hm; cbn [heap boxes] in *;
    pose proof (Hcnt r) as Hr; pose proof (Horph r) as Ho; unfold counted in Hr;
    rewrite aliases_insert;
    match goal with
    | Hthis : boxes s !! this = Some ?b |- _ =>
        rewrite (aliases_lookup _ this b r Hthis) in Hr, Ho
    end;
    heap_facts; destruct Hr as [Hr|(m0 & Hm0 & Hle)]; orphan_cases.
Qed.

Lemma destroy_tight s this s' :
  tight s → final_state (destroy this s) = Some s' → tight s'.
Proof.
  intros Hs Hfin.
  split; [eapply (destroy_consistent true); [apply Hs|done]|].
  revert Hfin. unfold destroy, bind.
  destruct (dtor this s) as [[] s1|x s1|] eqn:Hd; cbn [final_state]; try done.
  - destruct (dtor_consistent true s this s1) as (_ & b & Hb & [_ Hr]);
      [apply Hs|by rewrite Hd|].
    destruct (dtor_tight s this s1 Hs) as [_ Horph]; [by rewrite Hd|].
    unfold end_lifetime. intros [= <-] r m Hm. cbn [boxes heap set_boxes] in *.
    pose proof (Horph r m Hm) as Ho.
    rewrite (aliases_lookup _ _ _ r Hb) in Ho.
    unfold refers in Ho. rewrite Hr in Ho.
    rewrite decide_False in Ho by done. lia.
  - intros [= <-]. revert Hd. unfold_members. msimpl.
    repeat (exec_step; msimpl; try (intros [=]; fail)).
Qed.

Lemma frame_tight s s' :
  boxes s' = boxes s → (∀ r, cnt (heap s') r = cnt (heap s) r) →
  tight s → tight s'.
Proof.
  intros Hb Hh [Hc Horph]. split.
  - eapply frame_consistent; [done| |done]. intros r n. by rewrite Hh.
  - intros r n. rewrite Hh, Hb. apply Horph.
Qed.

Lemma observer_tight {A} (m : M A) s s' :
  (∀ s0, final_state (m s0) = Some s0 ∨ m s0 = UB) →
  tight s → final_state (discard m s) = Some s' → tight s'.
Proof.
  intros Hm Hs. unfold discard, bind, ret.
  destruct (Hm s) as [H|H]; destruct (m s); cbn [final_state] in *; congruence.
Qed.

(** A path that leaves the boxes alone and no count allocated, freed or
    changed. *)
Ltac frame_tight_tac Hs :=
  eapply frame_tight; [| |exact Hs]; cbn [boxes heap]; [done|];
  intros ?; heap_facts;
  repeat first
    [ rewrite cnt_delete | rewrite cnt_insert_T | rewrite cnt_insert_Raw
    | match goal with
      | H : context [cnt (<[_ := RawCell]> _) _] |- _ => rewrite cnt_insert_Raw in H
      | H : context [cnt (<[_ := TCell _]> _) _] |- _ => rewrite cnt_insert_T in H
      end ];
  repeat case_decide; simplify_eq; congruence.

Lemma new_T_tight s v s' :
  tight s → final_state (discard (new_T v) s) = Some s' → tight s'.
Proof.
  intros Hs. exec_cases; [done|frame_tight_tac Hs..].
Qed.

Lemma ctor_default_tight s this s' :
  tight s → boxes s !! this = None →
  final_state (ctor_default this s) = Some s' → tight s'.
Proof.
  intros Hs Hfresh Hfin.
  split; [eapply ctor_default_consistent; [apply Hs|done|done]|].
  destruct Hs as [[_ Hcnt] Horph]. revert Hfin. exec_cases.
  intros r m Hm; cbn [heap boxes] in *;
    pose proof (Hcnt r) as Hr; pose proof (Horph r) as Ho; unfold counted in Hr.
  rewrite aliases_insert, delete_id by done.
  destruct Hr as [Hr|(m0 & Hm0 & Hle)]; orphan_cases.
Qed.

Lemma ctor_lref_tight s this a s' :
  tight s → boxes s !! this = None →
  final_state (ctor_lref this (Some a) s) = Some s' → tight s'.
Proof.
  intros Hs Hfresh Hfin.
  split; [eapply ctor_lref_consistent; [apply Hs|done|done]|].
  revert Hfin.
  exec_cases; [apply Hs|apply (frame_tight s); [done| |done]|].
  - intros r. cbn [heap]. heap_facts. rewrite cnt_insert_Raw.
    case_decide; simplify_eq; congruence.
  - destruct Hs as [[_ Hcnt] Horph].
    intros r m Hm; cbn [heap boxes] in *;
    pose proof (Hcnt r) as Hr; pose proof (Horph r) as Ho; unfold counted in Hr;
    rewrite aliases_insert, delete_id by done; heap_facts;
    destruct Hr as [Hr|(m0 & Hm0 & Hle)]; orphan_cases.
Qed.

Lemma ctor_rref_tight s this a s' :
  tight s → boxes s !! this = None →
  final_state (ctor_rref this (Some a) s) = Some s' → tight s'.
Proof.
  intros Hs Hfresh Hfin.
  split; [eapply ctor_rref_consistent; [apply Hs|done|done]|].
  revert Hfin.
  exec_cases;
    [apply (frame_tight s); [done| |done]
    |apply (frame_tight s); [done| |done]|].
  - intros r. cbn [heap]. heap_facts. rewrite cnt_delete.
    case_decide; simplify_eq; congruence.
  - intros r. cbn [heap]. heap_facts. rewrite cnt_insert_Raw in *.
    rewrite cnt_delete, cnt_insert_Raw.
    repeat case_decide; simplify_eq; congruence.
  - destruct Hs as [[_ Hcnt] Horph].
    intros r m Hm; cbn [heap boxes] in *;
    pose proof (Hcnt r) as Hr; pose proof (Horph r) as Ho; unfold counted in Hr;
    rewrite aliases_insert, delete_id by done; heap_facts;
    destruct Hr as [Hr|(m0 & Hm0 & Hle)]; orphan_cases.
Qed.

Lemma ctor_copy_tight s this rhs s' :
  tight s → boxes s !! this = None →
  final_state (ctor_copy this rhs s) = Some s' → tight s'.
Proof.
  intros Hs Hfresh Hfin.
  split; [eapply ctor_copy_consistent; [apply Hs|done|done]|].
  destruct Hs as [[_ Hcnt] Horph]. revert Hfin. exec_cases.
  intros r m Hm; cbn [heap boxes] in *;
    pose proof (Hcnt r) as Hr; pose proof (Horph r) as Ho; unfold counted in Hr.
  rewrite aliases_insert, delete_id by done. heap_facts.
  destruct Hr as [Hr|(m0 & Hm0 & Hle)]; orphan_cases.
Qed.

Lemma moved_tight s this rhs rb b0 :
  tight s → this ≠ rhs → boxes s !! rhs = Some rb →
  (boxes s !! this = None ∨ (boxes s !! this = Some b0 ∧ ref_ b0 = None)) →
  no_orphan (set_boxes (<[rhs := Box None None]> (<[this := rb]> (boxes s))) s).
Proof.
  intros [[_ Hcnt] Horph] Hne Hrb Hthis r m Hm. cbn [heap boxes set_boxes] in *.
  pose proof (Horph r m Hm) as Ho.
  rewrite aliases_insert, delete_insert_ne, aliases_insert by done.
  rewrite (aliases_lookup _ _ _ r Hrb) in Ho.
  destruct Hthis as [Hfresh|[Hb Hr]].
  - rewrite (delete_id (delete rhs (boxes s)) this) by (by rewrite lookup_delete_ne).
    unfold refers in *. cbn [ref_]. repeat case_decide; simplify_eq; lia.
  - rewrite (aliases_lookup (delete rhs (boxes s)) this b0 r) in Ho
      by (by rewrite lookup_delete_ne).
    unfold refers in *. cbn [ref_]. repeat case_decide; simplify_eq; try congruence; lia.
Qed.

Lemma ctor_move_tight s this rhs s' :
  tight s → boxes s !! this = None →
  final_state (ctor_move this rhs s) = Some s' → tight s'.
Proof.
  intros Hs Hfresh Hfin.
  split; [eapply ctor_move_consistent; [apply Hs|done|done]|].
  revert Hfin.
  destruct (boxes s !! rhs) as [rb|] eqn:Hrb;
    [|unfold_members; msimpl; by rewrite Hrb].
  assert (this ≠ rhs) by congruence.
  rewrite (ctor_move_exec _ _ _ _ Hrb) by done.
  intros [= <-]. eapply (moved_tight _ _ _ _ rb); eauto.
Qed.

Lemma assign_move_tight s this rhs s' :
  tight s → nothing_to_release (MoveAssign this rhs) s →
  final_state (assign_move this rhs s) = Some s' → tight s'.
Proof.
  intros Hs Hrel Hfin.
  split; [eapply assign_move_consistent; [apply Hs|done|done]|].
  revert Hfin.
  destruct (decide (this = rhs)) as [->|Hne].
  { rewrite assign_move_self. intros [= <-]. apply Hs. }
  destruct (boxes s !! rhs) as [rb|] eqn:Hrb;
    [|unfold_members; rewrite decide_False by done; msimpl; by rewrite Hrb].
  destruct (boxes s !! this) as [b|] eqn:Hb;
    [|unfold_members; rewrite decide_False by done; msimpl; by rewrite Hrb, Hb].
  rewrite (assign_move_exec _ _ _ _ _ Hrb Hb) by done.
  intros [= <-]. eapply (moved_tight _ _ _ _ b); eauto.
  right. split; [done|].
  destruct Hrel as [?|(b' & Hb' & [_ ?])]; [done|congruence].
Qed.

Lemma assign_copy_tight s this rhs s' :
  tight s → final_state (assign_copy this rhs s) = Some s' → tight s'.
Proof.
  intros Hs Hfin.
  split; [eapply assign_copy_consistent; [apply Hs|done]|].
  destruct Hs as [[_ Hcnt] Horph]. revert Hfin.
  unfold assign_copy. destruct (decide (this = rhs)) as [->|Hne].
  { by intros [= <-]. }
  exec_cases;
    intros r m Hm; cbn [heap boxes] in *;
    pose proof (Hcnt r) as Hr; pose proof (Horph r) as Ho; unfold counted in Hr;
    rewrite aliases_insert;
    match goal with
    | Hthis : boxes s !! this = Some ?b, Hrhs : boxes s !! rhs = Some ?rb |- _ =>
        rewrite (aliases_lookup (delete this (boxes s)) rhs rb r)
          by (by rewrite lookup_delete_ne);
        rewrite (aliases_lookup _ this b r Hthis),
          (aliases_lookup (delete this (boxes s)) rhs rb r) in Hr, Ho
          by (by rewrite lookup_delete_ne)
    end;
    heap_facts; destruct Hr as [Hr|(m0 & Hm0 & Hle)]; orphan_cases.
Qed.

Lemma clone_tight s this s' :
  tight s → final_state (discard (clone T_init this) s) = Some s' → tight s'.
Proof.
  intros Hs Hfin.
  split; [eapply clone_consistent; [apply Hs|done]|].
  pose proof Hs as [[_ Hcnt] Horph]. revert Hfin.
  exec_cases; try (apply Hs);
    try (apply (frame_tight s); [done| |done]; intros r; cbn [heap];
         heap_facts;
         repeat first
           [ rewrite cnt_delete | rewrite cnt_insert_T | rewrite cnt_insert_Raw
           | match goal with
             | H : context [cnt (<[_ := RawCell]> _) _] |- _ =>
                 rewrite cnt_insert_Raw in H
             | H : context [cnt (<[_ := TCell _]> _) _] |- _ =>
                 rewrite cnt_insert_T in H
             end ];
         repeat case_decide; simplify_eq; congruence);
    repeat match goal with
      | H : <[_ := _]> _ !! _ = Some (TCell _) |- _ => clear H
      end;
    repeat match goal with
      | H : context [<[?k := _]> _ !! ?j] |- _ =>
          rewrite (lookup_insert_ne _ k j) in H by congruence
      end;
    intros r m Hm; cbn [heap boxes] in *;
    pose proof (Hcnt r) as Hr; pose proof (Horph r) as Ho; unfold counted in Hr;
    rewrite aliases_insert;
    match goal with
    | Hthis : boxes s !! this = Some ?b |- _ =>
        rewrite (aliases_lookup _ this b r Hthis) in Hr, Ho
    end;
    heap_facts; destruct Hr as [Hr|(m0 & Hm0 & Hle)]; orphan_cases.
Qed.

Lemma exec_op_tight o s s' :
  tight s → nothing_to_release o s →
  exec_op T_init o s = Some s' → tight s'.
Proof.
  intros Hs Hrel. unfold exec_op.
  destruct (storage_ok o s) eqn:Hok; [|done].
  destruct o; cbn [run_op storage_ok] in *;
    try apply bool_decide_eq_true in Hok.
  - by apply new_T_tight.
  - intros [= <-]. by eapply frame_tight.
  - intros [= <-]. by eapply frame_tight.
  - by apply ctor_default_tight.
  - by apply ctor_lref_tight.
  - by apply ctor_rref_tight.
  - by apply ctor_copy_tight.
  - by apply ctor_move_tight.
  - by apply assign_copy_tight.
  - by apply assign_move_tight.
  - by apply clone_tight.
  - apply observer_tight; [apply ref_count_pure|done].
  - apply observer_tight; [apply operator_star_pure|done].
  - apply observer_tight; [apply operator_arrow_pure|done].
  - by apply destroy_tight.
Qed.

Lemma releasing_tight s : reachable_releasing T_init s → tight s.
Proof.
  induction 1 as [|s o s' _ IH Hrel Hstep].
  - split; [apply initial_consistent|]. intros r n. unfold initial, cnt.
    cbn [heap]. by rewrite lookup_empty.
  - by eapply exec_op_tight.
Qed.

(** X15. As long as no move assignment targets a box that still owns
    something, every allocated count is referenced by at least one live
    box, and its value is the number of boxes that reference it. *)
Theorem no_count_leaked s r n :
  reachable_releasing T_init s → heap s !! r = Some (IntCell n) →
  1 ≤ n ∧ n = Z.of_nat (aliases (boxes s) r) ∧
  ∃ h b, boxes s !! h = Some b ∧ ref_ b = Some r.
Proof.
  intros Hreach Hn.
  destruct (releasing_tight _ Hreach) as [[_ Hcnt] Horph].
  apply cnt_int in Hn. pose proof (Horph _ _ Hn) as Hal.
  destruct (Hcnt r) as [?|(m & Hm & Hcov)]; [lia|].
  cbn [covers] in Hcov. assert (m = n) as -> by congruence.
  split; [lia|]. split; [lia|].
  destruct (map_choose (filter (λ hb : handle * smart_ptr, ref_ hb.2 = Some r) (boxes s)))
    as (h & b & Hhb).
  { apply map_size_non_empty_iff. unfold aliases in Hal. lia. }
  apply map_lookup_filter_Some in Hhb as [Hb Hr]. by exists h, b.
Qed.

End Tight.

(** ** Transfers and round trips *)

Section More.
Context {T : Type}.
Implicit Types (s : state T) (b : smart_ptr) (this rhs : handle) (a r : loc).

(** X16. Move assignment onto a box that has a count of its own leaves
    that count as it is in the heap while one handle fewer references it. *)
Theorem assign_move_drops_without_release s this rhs b rb r :
  this ≠ rhs → boxes s !! this = Some b → boxes s !! rhs = Some rb →
  ref_ b = Some r → ref_ rb ≠ Some r →
  ∃ s', assign_move this rhs s = Ok tt s' ∧
        heap s' = heap s ∧
        boxes s' !! this = Some rb ∧
        aliases (boxes s) r = S (aliases (boxes s') r).
Proof.
  intros Hne Hb Hrb Hr Hother.
  eexists. split; [by eapply assign_move_exec|].
  cbn [heap boxes set_boxes]. split; [done|].
  split; [by rewrite lookup_insert_ne, lookup_insert_eq|].
  rewrite aliases_insert, delete_insert_ne, aliases_insert by done.
  rewrite (aliases_lookup _ _ _ r Hrb).
  rewrite (aliases_lookup (delete rhs (boxes s)) this b r)
    by (by rewrite lookup_delete_ne).
  unfold refers. cbn [ref_].
  repeat case_decide; simplify_eq; try congruence; lia.
Qed.

(** X17. Copy construction is undefined when the source has no count (a
    null pointer is dereferenced) and when the count is [INT_MAX] (signed
    overflow). *)
Theorem ctor_copy_undefined s this rhs b :
  boxes s !! rhs = Some b →
  (ref_ b = None → ctor_copy this rhs s = UB) ∧
  (∀ r, ref_ b = Some r → heap s !! r = Some (IntCell INT_MAX) →
        ctor_copy this rhs s = UB).
Proof.
  intros Hb. split.
  - intros Hr. unfold_members. exec_steps. reflexivity.
  - intros r Hr Hc. unfold_members. exec_steps.
    change (INT_MAX <? INT_MAX) with false. reflexivity.
Qed.

(** X18. Allocating a value, building a box from it by ownership transfer
    and destroying the box leaves the set of boxes as it was and no object
    behind, whether or not the count could be allocated: the heap is as it
    was, except that a block which [operator new] took for the count and
    dropped, when recording its address failed, is still there with no
    object in it.  Without recording the heap is exactly as it was. *)
Theorem construct_then_destroy_frees s this (v : T) a s1 :
  boxes s !! this = None → new_T v s = Ok a s1 →
  ∃ s', final_state
          (bind (new_T v) (λ a,
             bind (ctor_rref this (Some a)) (λ _, destroy this)) s) = Some s' ∧
        boxes s' = boxes s ∧
        heap s' !! a = None ∧
        (heap s' = heap s ∨
         ∃ q, heap s !! q = None ∧ heap s' = <[q := RawCell]> (heap s) ∧
              recordaddrs s = true ∧ recordaddrs s' = false) ∧
        (recordaddrs s = false → heap s' = heap s).
Proof.
  intros Hfresh Hnew.
  assert (Hgoal : ∃ s', final_state
          (bind (new_T v) (λ a,
             bind (ctor_rref this (Some a)) (λ _, destroy this)) s) = Some s' ∧
        boxes s' = boxes s ∧
        heap s' !! a = None ∧
        (heap s' = heap s ∨
         ∃ q, heap s !! q = None ∧ heap s' = <[q := RawCell]> (heap s) ∧
              recordaddrs s = true ∧ recordaddrs s' = false)).
  2:{ destruct Hgoal as (s' & Hfin & Hbs & Ha & Hh).
      exists s'. split; [done|]. split; [done|]. split; [done|]. split; [done|].
      intros Hoff. destruct Hh as [?|(q & _ & _ & Hon & _)]; [done|congruence]. }
  unfold bind at 1. rewrite Hnew.
  destruct (new_T_cases v s)
    as [[_ E]|[(q & _ & _ & E)|(a0 & tb & ad & Ha & _ & _ & E)]];
    rewrite E in Hnew; try discriminate.
  injection Hnew as <- <-. clear E.
  unfold bind at 1. unfold ctor_rref, try_bad_alloc.
  destruct (new_int_cases 1
              (State (<[a0 := TCell v]> (heap s)) (boxes s) tb (recordaddrs s) ad))
    as [[_ E]|[(q & Hq & Hrec & E)|(c & tb2 & ad2 & Hc & _ & _ & E)]];
    rewrite E; clear E; cbn [heap boxes throwBadAlloc recordaddrs addrs] in *.
  - (* the count allocation throws at once *)
    eexists. split.
    { unfold delete_T, bind, throw. cbn [heap].
      rewrite lookup_insert_eq, operator_delete_exec. reflexivity. }
    unfold deleted. cbn [heap boxes].
    split; [done|]. split; [apply lookup_delete_eq|]. left.
    by apply delete_insert_id.
  - (* the count allocation throws after it took a block *)
    apply lookup_insert_None in Hq as [Hq Hne].
    assert (Hne' : q ≠ a0) by congruence.
    eexists. split.
    { unfold delete_T, bind, throw. cbn [heap].
      rewrite lookup_insert_ne by done.
      rewrite lookup_insert_eq, operator_delete_exec. reflexivity. }
    unfold deleted. cbn [heap boxes recordaddrs].
    split; [done|]. split; [apply lookup_delete_eq|]. right. exists q.
    split; [done|]. split; [|done].
    rewrite delete_insert_ne by done. by rewrite delete_insert_id.
  - (* the box is built, then destroyed *)
    apply lookup_insert_None in Hc as [Hc Hne].
    assert (Hne' : c ≠ a0) by congruence.
    assert (Hval : <[c := IntCell 1]> (<[a0 := TCell v]> (heap s)) !! a0
                   = Some (TCell v))
      by (rewrite lookup_insert_ne by done; apply lookup_insert_eq).
    pose proof (destroy_sole_owner_exec
                  (State (<[c := IntCell 1]> (<[a0 := TCell v]> (heap s)))
                     (<[this := Box (Some a0) (Some c)]> (boxes s))
                     tb2 (recordaddrs s) ad2)
                  this (Box (Some a0) (Some c)) (Some a0) c
                  (lookup_insert_eq _ _ _) eq_refl eq_refl
                  (lookup_insert_eq _ _ _) (ex_intro _ v Hval)) as Hd.
    cbn [heap boxes throwBadAlloc recordaddrs addrs] in Hd.
    eexists. split.
    { unfold begin_lifetime. state_norm. rewrite Hd. reflexivity. }
    cbn [heap boxes].
    split; [by apply delete_insert_id|]. split; [apply lookup_delete_eq|]. left.
    rewrite delete_insert_id by (by rewrite lookup_insert_ne).
    by apply delete_insert_id.
Qed.

(** X19. Move-constructing a box and destroying the moved-from source only
    renames the handle: the heap is untouched and the new box holds what
    the source held. *)
Theorem move_then_destroy_source_transfers s this rhs rb :
  boxes s !! this = None → boxes s !! rhs = Some rb →
  bind (ctor_move this rhs) (λ _, destroy rhs) s =
    Ok tt (set_boxes (<[this := rb]> (delete rhs (boxes s))) s).
Proof.
  intros Hfresh Hrb. assert (this ≠ rhs) by congruence.
  unfold bind at 1. rewrite (ctor_move_exec _ _ _ _ Hrb) by done.
  unfold destroy, bind.
  erewrite dtor_Empty_exec;
    [|cbn [boxes set_boxes]; apply lookup_insert_eq|done].
  unfold end_lifetime, set_boxes. cbn [heap boxes throwBadAlloc].
  by rewrite delete_insert_eq, delete_insert_ne.
Qed.

End More.

(** ** Clone gives a private copy *)

Section Isolation.
Context {T : Type}.
Variable T_init : T.
Implicit Types (s : state T) (b : smart_ptr) (this rhs : handle) (a r : loc).

(** X20. After a successful [clone] the box points to a value of its
    own at an address that was not allocated before: a write through the
    box is read back through it and leaves the value the former siblings
    still share as it was. *)
Theorem clone_isolates s this b a r v n a' r' s2 :
  boxes s !! this = Some b → ptr_ b = Some a → ref_ b = Some r →
  heap s !! a = Some (TCell v) → heap s !! r = Some (IntCell n) →
  1 < n → clone_allocations T_init s = Ok (a', r') s2 →
  ∃ s',
    clone T_init this s = Ok true s' ∧
    operator_star this s' = Ok a' s' ∧
    a' ≠ a ∧ heap s !! a' = None ∧
    ∀ v', ∃ s'',
      store_T (Some a') v' s' = Ok tt s'' ∧
      load_T (Some a') s'' = Ok v' s'' ∧
      load_T (Some a) s'' = Ok v s'' ∧
      boxes s'' = boxes s'.
Proof.
  intros Hb Hp Hr Ha Hc Hn Halloc.
  destruct (clone_allocations_cells _ _ _ _ _ Halloc)
    as (Ha' & Hr' & Hne' & Hbs2 & Ha2 & Hr2 & Hrest).
  assert (a' ≠ a) by congruence.
  assert (a' ≠ r) by congruence.
  assert (r ≠ a) by congruence.
  assert (r' ≠ a) by congruence.
  exists (cloned s2 this a' r' r v n).
  split; [eapply (clone_exec T_init); eauto; unfold INT_MIN; lia|].
  assert (Hthis : boxes (cloned s2 this a' r' r v n) !! this
                  = Some (Box (Some a') (Some r')))
    by (unfold cloned; cbn [boxes]; apply lookup_insert_eq).
  split; [by rewrite (operator_star_live _ _ _ Hthis)|].
  split; [done|]. split; [done|].
  intros v'.
  assert (Hcell : heap (cloned s2 this a' r' r v n) !! a' = Some (TCell v)).
  { unfold cloned. cbn [heap].
    rewrite lookup_insert_ne by done. apply lookup_insert_eq. }
  eexists. split; [unfold store_T; by rewrite Hcell|].
  cbn [heap boxes set_heap]. split; [|split; [|done]].
  - unfold load_T. cbn [heap set_heap]. by rewrite lookup_insert_eq.
  - unfold load_T. cbn [heap set_heap]. unfold cloned. cbn [heap].
    rewrite !lookup_insert_ne by done. rewrite Hrest by congruence. by rewrite Ha.
Qed.

End Isolation.

(** ** The further theorems at concrete states *)

Lemma shared2_reachable_owned : reachable_owned 0 shared2.
Proof.
  apply (owned_step 0 sole_owner (Copy 2%positive 1%positive));
    [|exact I|by vm_compute].
  apply (owned_step 0 raw_value (FromRref 1%positive 1%positive));
    [| |by vm_compute].
  - apply (owned_step 0 initial (NewT 42)); [apply owned_initial|exact I|by vm_compute].
  - split; [exists 42; by vm_compute|].
    intros h b Hl. unfold raw_value in Hl. cbn [boxes] in Hl.
    by rewrite lookup_empty in Hl.
Qed.

Lemma shared2_reachable_releasing : reachable_releasing 0 shared2.
Proof.
  apply (releasing_step 0 sole_owner (Copy 2%positive 1%positive));
    [|exact I|by vm_compute].
  apply (releasing_step 0 raw_value (FromRref 1%positive 1%positive));
    [|exact I|by vm_compute].
  apply (releasing_step 0 initial (NewT 42));
    [apply releasing_initial|exact I|by vm_compute].
Qed.

Lemma dtor_release_rule_witness :
  boxes sole_owner !! 1%positive = Some (Box (Some 1%positive) (Some 2%positive)) ∧
  ∃ s', dtor 1%positive sole_owner = Ok tt s' ∧
        heap s' !! 1%positive = None ∧ heap s' !! 2%positive = None.
Proof.
  split; [vm_compute; reflexivity|].
  destruct (dtor_release_rule sole_owner 1%positive
              (Box (Some 1%positive) (Some 2%positive)))
    as (_ & Hsole & _); [vm_compute; reflexivity|].
  destruct (Hsole 1%positive 2%positive 42)
    as (s' & Hd & _ & _ & Ha & Hr);
    [reflexivity|reflexivity|vm_compute; reflexivity|vm_compute; reflexivity|].
  exists s'. split; [exact Hd|]. split; [exact Ha|exact Hr].
Defined.

Lemma ctor_copy_shares_witness :
  boxes sole_owner !! 1%positive = Some (Box (Some 1%positive) (Some 2%positive)) ∧
  ∃ s', ctor_copy 2%positive 1%positive sole_owner = Ok tt s' ∧
        ref_count 2%positive s' = Ok 2 s' ∧ ref_count 1%positive s' = Ok 2 s'.
Proof.
  split; [vm_compute; reflexivity|].
  destruct (ctor_copy_shares sole_owner 2%positive 1%positive
              (Box (Some 1%positive) (Some 2%positive)) 2%positive 1)
    as (s' & Hc & _ & _ & Hthis & Hrhs & _);
    [vm_compute; reflexivity|reflexivity|vm_compute; reflexivity
    |unfold INT_MAX; lia|lia|].
  exists s'. split; [exact Hc|]. split; [exact Hthis|exact Hrhs].
Defined.

Lemma copy_then_destroy_restores_witness :
  boxes sole_owner !! 2%positive = None ∧
  bind (ctor_copy 2%positive 1%positive) (λ _, destroy 2%positive) sole_owner
    = Ok tt sole_owner.
Proof.
  split; [vm_compute; reflexivity|].
  apply (copy_then_destroy_restores sole_owner 2%positive 1%positive
           (Box (Some 1%positive) (Some 2%positive)) 2%positive 1).
  - vm_compute; reflexivity.
  - vm_compute; reflexivity.
  - reflexivity.
  - vm_compute; reflexivity.
  - lia.
  - unfold INT_MAX; lia.
Defined.

Lemma raw_ctors_agree_on_success_witness :
  new_int 1 raw_value = Ok 2%positive raw_value_and_count ∧
  ∃ s',
    ctor_lref 1%positive (Some 1%positive) raw_value = Ok tt s' ∧
    ctor_rref 1%positive (Some 1%positive) raw_value = Ok tt s' ∧
    boxes s' !! 1%positive = Some (Box (Some 1%positive) (Some 2%positive)) ∧
    ref_count 1%positive s' = Ok 1 s'.
Proof.
  assert (Hnew : new_int 1 raw_value = Ok 2%positive raw_value_and_count)
    by (vm_compute; reflexivity).
  split; [exact Hnew|].
  destruct (raw_ctors_agree_on_success raw_value 1%positive (Some 1%positive))
    as [_ Hok].
  destruct (Hok 2%positive raw_value_and_count Hnew)
    as (s' & Hl & Hr & _ & Hb & Hn & _).
  exists s'. split; [exact Hl|]. split; [exact Hr|]. split; [exact Hb|exact Hn].
Defined.

Lemma assign_copy_is_release_then_copy_witness :
  boxes shared2 !! 2%positive = Some (Box (Some 1%positive) (Some 2%positive)) ∧
  assign_copy 1%positive 2%positive shared2
    = bind (dtor 1%positive) (λ _, ctor_copy 1%positive 2%positive) shared2.
Proof.
  split; [vm_compute; reflexivity|].
  apply (assign_copy_is_release_then_copy shared2 1%positive 2%positive
           (Box (Some 1%positive) (Some 2%positive))).
  - lia.
  - vm_compute; reflexivity.
  - exists 2%positive. reflexivity.
Defined.

Lemma assign_copy_from_Empty_witness :
  boxes owner_and_empty !! 2%positive = Some (Box None None) ∧
  assign_copy 1%positive 2%positive owner_and_empty
    = dtor 1%positive owner_and_empty.
Proof.
  split; [vm_compute; reflexivity|].
  apply (assign_copy_from_Empty owner_and_empty 1%positive 2%positive
           (Box (Some 1%positive) (Some 2%positive)) (Box None None)).
  - lia.
  - vm_compute; reflexivity.
  - vm_compute; reflexivity.
  - split; reflexivity.
  - right. split; eexists; reflexivity.
Defined.

Lemma assign_copy_between_aliases_witness :
  boxes shared2 !! 1%positive = boxes shared2 !! 2%positive ∧
  assign_copy 1%positive 2%positive shared2 = Ok tt shared2.
Proof.
  split; [vm_compute; reflexivity|].
  apply (assign_copy_between_aliases shared2 1%positive 2%positive
           (Box (Some 1%positive) (Some 2%positive)) 2%positive 2).
  - lia.
  - vm_compute; reflexivity.
  - vm_compute; reflexivity.
  - reflexivity.
  - vm_compute; reflexivity.
  - lia.
  - unfold INT_MAX; lia.
Defined.

Lemma nth_allocation_throws_witness :
  recordaddrs (shared3 3) = false ∧
  throwBadAlloc (shared3 3) = Z.of_nat 3 ∧
  ∃ s', allocate 2 0 (shared3 3) = Ok tt s' ∧
        new_T 0 s' = Throw bad_alloc s'.
Proof.
  split; [reflexivity|]. split; [reflexivity|].
  destruct (nth_allocation_throws 2 (shared3 3) 0)
    as (s' & Hrun & _ & _ & _ & _ & _ & Hfail & _); [reflexivity|reflexivity|].
  exists s'. split; [exact Hrun|exact Hfail].
Defined.

Lemma allocation_disarmed_witness :
  throwBadAlloc (shared3_recording 0) ≤ 0 ∧
  ∃ s', allocate 3 0 (shared3_recording 0) = Ok tt s' ∧
        throwBadAlloc s' = throwBadAlloc (shared3_recording 0).
Proof.
  assert (H0 : throwBadAlloc (shared3_recording 0) ≤ 0) by (cbn; lia).
  split; [exact H0|].
  destruct (allocation_disarmed 3 (shared3_recording 0) 0 H0)
    as (s' & Hrun & _ & _ & Ht & _).
  exists s'. split; [exact Hrun|exact Ht].
Defined.

Lemma clone_allocations_fail_when_witness :
  recordaddrs (shared3_recording 4) = true ∧
  dom (addrs (shared3_recording 4)) ⊆ dom (heap (shared3_recording 4)) ∧
  raises (clone_allocations 0 (shared3_recording 4)) bad_alloc.
Proof.
  assert (Hlive : dom (addrs (shared3_recording 4))
                  ⊆ dom (heap (shared3_recording 4)))
    by (apply (bool_decide_unpack _); vm_compute; exact I).
  split; [reflexivity|]. split; [exact Hlive|].
  destruct (clone_allocations_fail_when 0 (shared3_recording 4)) as [_ Hon].
  apply (Hon eq_refl Hlive). cbn. lia.
Defined.

Lemma new_then_delete_restores_witness :
  recordaddrs recording_armed = true ∧
  dom (addrs recording_armed) ⊆ dom (heap recording_armed) ∧
  bind (new_T 42) (λ p, delete_T (Some p)) recording_armed =
    Ok tt (set_throwBadAlloc (countdown (countdown (throwBadAlloc recording_armed)))
             recording_armed).
Proof.
  assert (Hlive : dom (addrs recording_armed) ⊆ dom (heap recording_armed))
    by (apply (bool_decide_unpack _); vm_compute; exact I).
  split; [reflexivity|]. split; [exact Hlive|].
  destruct (new_then_delete_restores recording_armed 42) as [_ Hon].
  apply (Hon eq_refl Hlive); cbn; lia.
Defined.

Lemma recording_counts_twice_witness :
  recordaddrs recording_armed = true ∧
  dom (addrs recording_armed) ⊆ dom (heap recording_armed) ∧
  throwBadAlloc recording_armed = 2 * Z.of_nat 1 + 2 ∧
  ∃ s' q, allocate 1 42 recording_armed = Ok tt s' ∧
          heap s' !! q = None ∧
          new_T 42 s' =
            Throw bad_alloc
              (State (<[q := RawCell]> (heap s')) (boxes s') 1 false (addrs s')).
Proof.
  assert (Hlive : dom (addrs recording_armed) ⊆ dom (heap recording_armed))
    by (apply (bool_decide_unpack _); vm_compute; exact I).
  split; [reflexivity|]. split; [exact Hlive|]. split; [reflexivity|].
  destruct (recording_counts_twice 1 recording_armed 42)
    as (s' & Hrun & _ & _ & _ & _ & _ & _ & Htwo);
    [reflexivity|exact Hlive|right; reflexivity|].
  destruct (Htwo eq_refl) as (q & Hq & Hfail).
  exists s', q. split; [exact Hrun|]. split; [exact Hq|exact Hfail].
Defined.

Lemma no_dangling_value_witness :
  boxes shared2 !! 1%positive = Some (Box (Some 1%positive) (Some 2%positive)) ∧
  ∃ a v, operator_star 1%positive shared2 = Ok a shared2 ∧
         load_T (Some a) shared2 = Ok v shared2.
Proof.
  split; [vm_compute; reflexivity|].
  destruct (no_dangling_value 0 shared2 1%positive
              (Box (Some 1%positive) (Some 2%positive)))
    as (_ & Hocc & _);
    [exact shared2_reachable_owned|vm_compute; reflexivity|].
  apply Hocc. split; eexists; reflexivity.
Defined.

Lemma destroy_always_succeeds_witness :
  boxes shared2 !! 1%positive = Some (Box (Some 1%positive) (Some 2%positive)) ∧
  ∃ s', destroy 1%positive shared2 = Ok tt s' ∧
        boxes s' = delete 1%positive (boxes shared2).
Proof.
  split; [vm_compute; reflexivity|].
  apply (destroy_always_succeeds 0 shared2 1%positive
           (Box (Some 1%positive) (Some 2%positive))).
  - exact shared2_reachable_owned.
  - vm_compute; reflexivity.
Defined.

Lemma clone_completes_witness :
  boxes shared2 !! 1%positive = Some (Box (Some 1%positive) (Some 2%positive)) ∧
  ((∃ res s', clone 0 1%positive shared2 = Ok res s') ∨
   (∃ s', clone 0 1%positive shared2 = Throw bad_alloc s')).
Proof.
  split; [vm_compute; reflexivity|].
  apply (clone_completes 0 shared2 1%positive
           (Box (Some 1%positive) (Some 2%positive))).
  - exact shared2_reachable_owned.
  - vm_compute; reflexivity.
Defined.

Lemma assign_copy_completes_witness :
  boxes shared2 !! 1%positive = Some (Box (Some 1%positive) (Some 2%positive)) ∧
  ∃ s' m, assign_copy 1%positive 2%positive shared2 = Ok tt s' ∧
          ref_count 1%positive s' = Ok m s' ∧ ref_count 2%positive s' = Ok m s'.
Proof.
  split; [vm_compute; reflexivity|].
  destruct (assign_copy_completes 0 shared2 1%positive 2%positive
              (Box (Some 1%positive) (Some 2%positive))
              (Box (Some 1%positive) (Some 2%positive)))
    as (s' & m & Ha & _ & _ & Ht & Hr).
  - exact shared2_reachable_owned.
  - vm_compute; reflexivity.
  - vm_compute; reflexivity.
  - intros m Hm. vm_compute in Hm. injection Hm as <-. unfold INT_MAX. lia.
  - exists s', m. split; [exact Ha|]. split; [exact Ht|exact Hr].
Defined.

Lemma no_count_leaked_witness :
  heap shared2 !! 2%positive = Some (IntCell 2) ∧
  1 ≤ 2 ∧ 2 = Z.of_nat (aliases (boxes shared2) 2%positive) ∧
  ∃ h b, boxes shared2 !! h = Some b ∧ ref_ b = Some 2%positive.
Proof.
  split; [vm_compute; reflexivity|].
  apply (no_count_leaked 0 shared2 2%positive 2).
  - exact shared2_reachable_releasing.
  - vm_compute; reflexivity.
Defined.

Lemma assign_move_drops_without_release_witness :
  boxes two_owners !! 1%positive = Some (Box (Some 1%positive) (Some 2%positive)) ∧
  ∃ s', assign_move 1%positive 3%positive two_owners = Ok tt s' ∧
        heap s' = heap two_owners ∧
        boxes s' !! 1%positive = Some (Box (Some 3%positive) (Some 4%positive)) ∧
        aliases (boxes two_owners) 2%positive = S (aliases (boxes s') 2%positive).
Proof.
  split; [vm_compute; reflexivity|].
  apply (assign_move_drops_without_release two_owners 1%positive 3%positive
           (Box (Some 1%positive) (Some 2%positive))
           (Box (Some 3%positive) (Some 4%positive)) 2%positive).
  - lia.
  - vm_compute; reflexivity.
  - vm_compute; reflexivity.
  - reflexivity.
  - cbn. intros [=].
Defined.

Lemma ctor_copy_undefined_witness :
  boxes one_empty !! 1%positive = Some (Box None None) ∧
  ctor_copy 2%positive 1%positive one_empty = UB.
Proof.
  split; [vm_compute; reflexivity|].
  destruct (ctor_copy_undefined one_empty 2%positive 1%positive (Box None None))
    as [Hnull _]; [vm_compute; reflexivity|].
  apply Hnull. reflexivity.
Defined.

Lemma construct_then_destroy_frees_witness :
  boxes recording_armed !! 1%positive = None ∧
  new_T 42 recording_armed = Ok 1%positive first_value_recorded ∧
  ∃ s', final_state
          (bind (new_T 42) (λ a,
             bind (ctor_rref 1%positive (Some a)) (λ _, destroy 1%positive))
             recording_armed) = Some s' ∧
        boxes s' = boxes recording_armed ∧
        heap s' !! 1%positive = None ∧
        (heap s' = heap recording_armed ∨
         ∃ q, heap recording_armed !! q = None ∧
              heap s' = <[q := RawCell]> (heap recording_armed) ∧
              recordaddrs recording_armed = true ∧ recordaddrs s' = false).
Proof.
  assert (Hnew : new_T 42 recording_armed = Ok 1%positive first_value_recorded)
    by (vm_compute; reflexivity).
  split; [vm_compute; reflexivity|]. split; [exact Hnew|].
  destruct (construct_then_destroy_frees recording_armed 1%positive 42
              1%positive first_value_recorded)
    as (s' & Hfin & Hbs & Ha & Hh & _); [vm_compute; reflexivity|exact Hnew|].
  exists s'. split; [exact Hfin|]. split; [exact Hbs|]. split; [exact Ha|exact Hh].
Defined.

Lemma move_then_destroy_source_transfers_witness :
  boxes sole_owner !! 2%positive = None ∧
  bind (ctor_move 2%positive 1%positive) (λ _, destroy 1%positive) sole_owner
    = Ok tt (set_boxes
               (<[2%positive := Box (Some 1%positive) (Some 2%positive)]>
                  (delete 1%positive (boxes sole_owner))) sole_owner).
Proof.
  split; [vm_compute; reflexivity|].
  apply (move_then_destroy_source_transfers sole_owner 2%positive 1%positive
           (Box (Some 1%positive) (Some 2%positive))).
  - vm_compute; reflexivity.
  - vm_compute; reflexivity.
Defined.

Lemma clone_isolates_witness :
  boxes (shared3_recording 5) !! 1%positive
    = Some (Box (Some 1%positive) (Some 2%positive)) ∧
  clone_allocations 0 (shared3_recording 5)
    = Ok (3%positive, 5%positive) shared3_allocated ∧
  ∃ s', clone 0 1%positive (shared3_recording 5) = Ok true s' ∧
        operator_star 1%positive s' = Ok 3%positive s' ∧
        3%positive ≠ 1%positive.
Proof.
  split; [vm_compute; reflexivity|].
  assert (Halloc : clone_allocations 0 (shared3_recording 5)
                   = Ok (3%positive, 5%positive) shared3_allocated)
    by (vm_compute; reflexivity).
  split; [exact Halloc|].
  destruct (clone_isolates 0 (shared3_recording 5) 1%positive
              (Box (Some 1%positive) (Some 2%positive)) 1%positive 2%positive 314 3
              3%positive 5%positive shared3_allocated)
    as (s' & Hc & Hs & Hne & _);
    [vm_compute; reflexivity|reflexivity|reflexivity|vm_compute; reflexivity
    |vm_compute; reflexivity|lia|exact Halloc|].
  exists s'. split; [exact Hc|]. split; [exact Hs|exact Hne].
Defined.
